(** * ClimateMap.jsx: the raster-to-contour pipeline

    A shallow embedding of the algorithmic core of [src/ClimateMap.jsx]:
    the zone classifier ([assignZone], [colorForWi], [colorForThreshold]),
    the rasterizer ([buildRasterFromPoints]), the reprojection closures
    [yToLat] and [xToLon], the ring flattening and the contour loop of
    [ContourLayer], the corner-cutting smoother ([chaikinSmooth]), the
    rectangles of [ZoneRasterLayer] ([cells]), and of the component
    [ClimateMap] the year navigation ([handlePrevYear], [handleNextYear], the
    playback tick, [currentData]), the zone counts ([zoneStats]) and the
    extremes of the statistics panel.

    Every number of the source is an ECMAScript Number, an IEEE 754 binary64
    value.  The functions are written once over an interface [JsNumber] of the
    operations the source applies to numbers, and the interface has two
    instances: [Float64], Rocq's primitive binary64 floats, which is what the
    program computes with, and [Exact], the rationals, which is the arithmetic
    without rounding that the formulas of the source are designed in.

    Arrays are lists, a [Set] and a [Map] are the lists of their entries in
    insertion order, and an object with fixed fields is a record.  The
    rendering of the React components, the loading of the data and the grid
    synthesizer ([computeWi], [generateGridData]) are not part of the
    development; the contour generator of d3-contour is a parameter. *)

From Stdlib Require Import List ZArith QArith Qround Qabs Lqa Lia Bool String.
From Stdlib Require Import Permutation SetoidList SetoidPermutation Sorted.
From Stdlib Require Import Floats DecimalString.
Import ListNotations.

Set Implicit Arguments.
Close Scope Q_scope.

(** ** Numbers *)

Declare Scope js_scope.
Delimit Scope js_scope with js.

(** The operations of the source on numbers.  [lit] is a numeric literal of
    the source text (or an array length turned into a number); [strictEq] is
    [===]; [toFixed3 x] is [+x.toFixed(3)]; [NaN] is what arithmetic on
    [undefined] yields. *)
Class JsNumber (num : Type) : Type := {
  lit : Q -> num;
  add : num -> num -> num;
  sub : num -> num -> num;
  mul : num -> num -> num;
  div : num -> num -> num;
  lt : num -> num -> bool;
  le : num -> num -> bool;
  strictEq : num -> num -> bool;
  isNaN : num -> bool;
  isFinite : num -> bool;
  mathMax : num -> num -> num;
  mathMin : num -> num -> num;
  toFixed3 : num -> num;
  NaN : num
}.

Arguments lit {num _} _%_Q.

Infix "+" := add : js_scope.
Infix "-" := sub : js_scope.
Infix "*" := mul : js_scope.
Infix "/" := div : js_scope.
Infix "<?" := lt (at level 70) : js_scope.
Infix "<=?" := le (at level 70) : js_scope.
Infix "===" := strictEq (at level 70) : js_scope.
Notation "a !== b" := (negb (strictEq a b)) (at level 70) : js_scope.

(** An array length as a number. *)
Definition ofLength {num} `{JsNumber num} (n : nat) : num :=
  lit (inject_Z (Z.of_nat n)).

(** [SameValueZero], the equality of [Set] and [Map] keys: [===], except that
    NaN is equal to itself. *)
Definition sameValueZero {num} `{JsNumber num} (a b : num) : bool :=
  strictEq a b || (isNaN a && isNaN b).

(** *** binary64 *)

Module Float64.

(** An integer below 2^53 in magnitude, as the binary64 value it is. *)
Definition ofZ (z : Z) : float :=
  match z with
  | Z0 => PrimFloat.zero
  | Zpos _ => PrimFloat.of_uint63 (Uint63.of_Z z)
  | Zneg p => PrimFloat.opp (PrimFloat.of_uint63 (Uint63.of_Z (Zpos p)))
  end.

(** A decimal literal [n/d] denotes the binary64 value nearest to it, which
    is the correctly rounded quotient of the two integers. *)
Definition literal (q : Q) : float :=
  PrimFloat.div (ofZ (Qnum q)) (ofZ (Zpos (Qden q))).

(** [Math.max]: NaN if an argument is NaN, and [+0] above [-0]. *)
Definition max (a b : float) : float :=
  if PrimFloat.is_nan a || PrimFloat.is_nan b then PrimFloat.nan
  else if PrimFloat.ltb a b then b
  else if PrimFloat.ltb b a then a
  else if PrimFloat.get_sign a then b else a.

(** [Math.min]: NaN if an argument is NaN, and [-0] below [+0]. *)
Definition min (a b : float) : float :=
  if PrimFloat.is_nan a || PrimFloat.is_nan b then PrimFloat.nan
  else if PrimFloat.ltb a b then a
  else if PrimFloat.ltb b a then b
  else if PrimFloat.get_sign a then a else b.

(** The rational that mantissa [m] and exponent [e] stand for. *)
Definition exactValue (m : positive) (e : Z) : Q :=
  match e with
  | Z0 => Zpos m # 1
  | Zpos _ => (Zpos m * 2 ^ e)%Z # 1
  | Zneg p => Zpos m # (2 ^ p)%positive
  end.

(** [+x.toFixed(3)]: [x] is written with three decimals, the nearest such
    decimal and the larger one on a tie, and the text is read back.  From
    2^43 on the values are more than 0.001 apart and the text reads back as
    [x]; zero is written without a sign. *)
Definition toFixed3 (x : float) : float :=
  match Prim2SF x with
  | S754_zero _ => PrimFloat.zero
  | S754_finite s m e =>
      if PrimFloat.leb (ofZ (2 ^ 43)) (PrimFloat.abs x) then x
      else
        let n := Qfloor (exactValue m e * 1000 + (1 # 2)) in
        let r := literal (n # 1000) in
        if s then PrimFloat.opp r else r
  | _ => x
  end.

End Float64.

#[export] Instance Float64_number : JsNumber float := {|
  lit := Float64.literal;
  add := PrimFloat.add;
  sub := PrimFloat.sub;
  mul := PrimFloat.mul;
  div := PrimFloat.div;
  lt := PrimFloat.ltb;
  le := PrimFloat.leb;
  strictEq := PrimFloat.eqb;
  isNaN := PrimFloat.is_nan;
  isFinite := PrimFloat.is_finite;
  mathMax := Float64.max;
  mathMin := Float64.min;
  toFixed3 := Float64.toFixed3;
  NaN := PrimFloat.nan
|}.

(** *** Exact arithmetic *)

Module Exact.

Definition max (a b : Q) : Q := if Qle_bool a b then b else a.
Definition min (a b : Q) : Q := if Qle_bool a b then a else b.

Definition toFixed3 (x : Q) : Q :=
  let n := Qfloor (Qabs x * 1000 + (1 # 2)) in
  if Qle_bool 0 x then n # 1000 else (- n) # 1000.

End Exact.

#[export] Instance Exact_number : JsNumber Q := {|
  lit := fun q => q;
  add := Qplus;
  sub := Qminus;
  mul := Qmult;
  div := Qdiv;
  lt := fun a b => negb (Qle_bool b a);
  le := Qle_bool;
  strictEq := Qeq_bool;
  isNaN := fun _ => false;
  isFinite := fun _ => true;
  mathMax := Exact.max;
  mathMin := Exact.min;
  toFixed3 := Exact.toFixed3;
  NaN := 0%Q
|}.

Bind Scope js_scope with float.

(** A literal of the source as the binary64 value it denotes. *)
Definition f64 (q : Q) : float := Float64.literal q.

Arguments f64 q%_Q.

(** ** Curve smoother *)

Section Smoother.

Context {num : Type} `{JsNumber num}.

(** A vertex [[lat, lng]]. *)
Local Abbreviation LatLng := (num * num)%type.

(** [pts[i]].  Every index the smoother reads lies inside the array; the
    default stands for [undefined]. *)
Definition item (pts : list LatLng) (i : nat) : LatLng :=
  nth i pts (NaN, NaN).

Definition cutQ (p q : LatLng) : LatLng :=
  (lit 0.75 * fst p + lit 0.25 * fst q,
   lit 0.75 * snd p + lit 0.25 * snd q)%js.

Definition cutR (p q : LatLng) : LatLng :=
  (lit 0.25 * fst p + lit 0.75 * fst q,
   lit 0.25 * snd p + lit 0.75 * snd q)%js.

(** [pts.length > 2 && pts[0][0] === pts[n-1][0] && pts[0][1] === pts[n-1][1]] *)
Definition isClosed (pts : list LatLng) : bool :=
  (2 <? length pts)%nat
  && (fst (item pts 0) === fst (item pts (length pts - 1)))%js
  && (snd (item pts 0) === snd (item pts (length pts - 1)))%js.

(** The inner [for] loop: the two cut points of every edge [i], [i+1] for
    [startIndex <= i < endIndex - 1]. *)
Definition cutEdges (pts : list LatLng) (startIndex endIndex : nat) : list LatLng :=
  flat_map (fun i => [cutQ (item pts i) (item pts (i + 1));
                      cutR (item pts i) (item pts (i + 1))])
           (seq startIndex (endIndex - 1 - startIndex)).

(** The re-closing step at the end of a pass over a closed ring.  With an
    empty [next] the source would read [next[0][0]] of [undefined]; a pass
    over three or more points never leaves [next] empty. *)
Definition reclose (next : list LatLng) : list LatLng :=
  if (length next =? 0)%nat
     || (fst (item next 0) !== fst (item next (length next - 1)))%js
     || (snd (item next 0) !== snd (item next (length next - 1)))%js
  then next ++ [(fst (item next 0), snd (item next 0))]
  else next.

(** One turn of the outer loop: [next] as built from [pts]. *)
Definition chaikinPass (closed : bool) (pts : list LatLng) : list LatLng :=
  let n := length pts in
  let startIndex := if closed then 0 else 1 in
  let endIndex := if closed then n else n - 1 in
  let next := if closed then [] else [item pts 0] in
  let next := next ++ cutEdges pts startIndex endIndex in
  let next := if closed then next else next ++ [item pts (n - 1)] in
  if closed then reclose next else next.

(** The outer loop [for (it = 0; it < iterations; it++)], left early once
    a pass has produced more than 12000 points.  [iterations] is 4 when the
    caller gives none; the contour layer passes 4. *)
Fixpoint chaikinLoop (closed : bool) (iterations : nat) (pts : list LatLng)
  : list LatLng :=
  match iterations with
  | O => pts
  | S rest =>
      let next := chaikinPass closed pts in
      if (12000 <? Z.of_nat (length next))%Z then next
      else chaikinLoop closed rest next
  end.

Definition chaikinSmooth (latlngs : list LatLng) (iterations : nat) : list LatLng :=
  if (length latlngs <? 3)%nat then latlngs
  else chaikinLoop (isClosed latlngs) iterations latlngs.

End Smoother.

(** ** Zone classifier *)

(** The six zones, named as the strings the source returns. *)
Module Zone.

Inductive t : Set := I | II | III | IV | V | VI.

Definition name (z : t) : string :=
  match z with
  | I => "I" | II => "II" | III => "III" | IV => "IV" | V => "V" | VI => "VI"
  end.

End Zone.

Record ZoneInfo : Set := { color : string; label : string; range : string }.

(** The object [climateZones], keyed by zone. *)
Definition climateZones (z : Zone.t) : ZoneInfo :=
  match z with
  | Zone.I => {| color := "#2563eb"; label := "亜寒帯"; range := "< 15" |}
  | Zone.II => {| color := "#059669"; label := "冷温帯"; range := "15-45" |}
  | Zone.III => {| color := "#65a30d"; label := "中間温帯"; range := "45-85" |}
  | Zone.IV => {| color := "#d97706"; label := "暖温帯"; range := "85-180" |}
  | Zone.V => {| color := "#dc2626"; label := "亜熱帯"; range := "180-240" |}
  | Zone.VI => {| color := "#7c2d12"; label := "熱帯"; range := "> 240" |}
  end.

Section Zones.

Context {num : Type} `{JsNumber num}.

Definition ZONE_BOUNDARIES : list num := [lit 15; lit 45; lit 85; lit 180; lit 240].

Definition assignZone (wi : num) : Zone.t :=
  if (wi <? lit 15)%js then Zone.I
  else if (wi <? lit 45)%js then Zone.II
  else if (wi <? lit 85)%js then Zone.III
  else if (wi <? lit 180)%js then Zone.IV
  else if (wi <? lit 240)%js then Zone.V
  else Zone.VI.

Definition colorForWi (wi : num) : string :=
  if (wi <? lit 15)%js then color (climateZones Zone.I)
  else if (wi <? lit 45)%js then color (climateZones Zone.II)
  else if (wi <? lit 85)%js then color (climateZones Zone.III)
  else if (wi <? lit 180)%js then color (climateZones Zone.IV)
  else if (wi <? lit 240)%js then color (climateZones Zone.V)
  else color (climateZones Zone.VI).

(** Threshold lines at zone boundaries take the colour of the upper zone. *)
Definition colorForThreshold (t : num) : string :=
  if (t <=? lit 15)%js then color (climateZones Zone.II)
  else if (t <=? lit 45)%js then color (climateZones Zone.III)
  else if (t <=? lit 85)%js then color (climateZones Zone.IV)
  else if (t <=? lit 180)%js then color (climateZones Zone.V)
  else color (climateZones Zone.VI).

End Zones.

(** ** Rasterizer *)

Section Rasterizer.

Context {num : Type} `{JsNumber num}.

(** A sample [{ lat, lon, wi, zone }]. *)
Record Sample : Type := { lat : num; lon : num; wi : num; zone : string }.

(** The raster [{ values, width, height, lats, lons, dLat, dLon }]. *)
Record Raster : Type := {
  values : list num;
  width : nat;
  height : nat;
  lats : list num;
  lons : list num;
  dLat : num;
  dLon : num
}.

(** A [Set] of numbers, as its elements in insertion order.  Membership is
    [SameValueZero], and [-0] is stored as [+0]. *)
Definition canonicalKey (v : num) : num :=
  if (v === lit 0)%js then lit 0 else v.

Definition setAdd (s : list num) (v : num) : list num :=
  if existsb (sameValueZero v) s then s else s ++ [canonicalKey v].

Definition newSet (vs : list num) : list num := fold_left setAdd vs [].

(** [sort((a, b) => a - b)]: each element is put in front of the first one
    the comparator places after it. *)
Fixpoint insertSorted (x : num) (sorted : list num) : list num :=
  match sorted with
  | [] => [x]
  | y :: rest =>
      if (lit 0 <? y - x)%js then x :: sorted else y :: insertSorted x rest
  end.

Definition sortAscending (l : list num) : list num :=
  fold_left (fun sorted x => insertSorted x sorted) l [].

(** A [Map] from numbers to positions, as its entries in insertion order. *)
Definition mapSet (m : list (num * nat)) (key : num) (v : nat) : list (num * nat) :=
  if existsb (fun e => sameValueZero (fst e) key) m
  then map (fun e => if sameValueZero (fst e) key then (fst e, v) else e) m
  else m ++ [(canonicalKey key, v)].

Definition newMap (entries : list (num * nat)) : list (num * nat) :=
  fold_left (fun m e => mapSet m (fst e) (snd e)) entries [].

Definition mapGet (m : list (num * nat)) (key : num) : option nat :=
  option_map snd (find (fun e => sameValueZero (fst e) key) m).

(** [new Map(axis.map((v, i) => [v, i]))] *)
Definition axisIndex (axis : list num) : list (num * nat) :=
  newMap (combine axis (seq 0 (length axis))).

(** [a[i] = v]; an index past the end would grow the array. *)
Definition arraySet (a : list num) (i : nat) (v : num) : list num :=
  if (i <? length a)%nat then firstn i a ++ v :: skipn (S i) a
  else a ++ repeat NaN (i - length a) ++ [v].

(** The cell [xi + yi * width] a sample is written to, if both of its
    coordinates are in the index maps. *)
Definition cellIndex (latIndex lonIndex : list (num * nat)) (width : nat) (p : Sample)
  : option nat :=
  match mapGet latIndex (lat p), mapGet lonIndex (lon p) with
  | Some yi, Some xi => Some (xi + yi * width)
  | _, _ => None
  end.

(** The body of [for (const p of points)]. *)
Definition storeSample (latIndex lonIndex : list (num * nat)) (width : nat)
  (values : list num) (p : Sample) : list num :=
  match cellIndex latIndex lonIndex width p with
  | Some cell => arraySet values cell (wi p)
  | None => values
  end.

(** The cell size along an axis. *)
Definition cellSize (axis : list num) : num :=
  if (2 <=? length axis)%nat
  then toFixed3 (nth 1 axis NaN - nth 0 axis NaN)%js
  else lit 0.1.

(** [points] is [None] for an absent ([null] or [undefined]) argument. *)
Definition buildRasterFromPoints (points : option (list Sample)) : option Raster :=
  match points with
  | None => None
  | Some [] => None
  | Some points =>
      let lats := sortAscending (newSet (map lat points)) in
      let lons := sortAscending (newSet (map lon points)) in
      let latIndex := axisIndex lats in
      let lonIndex := axisIndex lons in
      let height := length lats in
      let width := length lons in
      let values := repeat NaN (width * height) in
      let values := fold_left (storeSample latIndex lonIndex width) points values in
      Some {| values := values; width := width; height := height;
              lats := lats; lons := lons;
              dLat := cellSize lats; dLon := cellSize lons |}
  end.

End Rasterizer.

Arguments Sample num : clear implicits.
Arguments Raster num : clear implicits.

(** ** Contour extractor *)

Section Contours.

Context {num : Type} `{JsNumber num}.

(** The coordinates of a contour as the generator returns them: arrays
    nested to some depth around rings, a ring being an array of [[x, y]]
    pairs in grid index space. *)
#[warnings="-register-all"]
Inductive Coordinates : Type :=
  | Ring (points : list (num * num))
  | Group (children : list Coordinates).

(** A contour [{ type, value, coordinates }] of the generator. *)
Record Contour : Type := { coordinates : Coordinates; value : num }.

(** An entry [{ latlngs, value }] of [polylines]; [threshold] is its field
    [value], the value of the contour the line was traced at. *)
Record Polyline : Type := { latlngs : list (num * num); threshold : num }.

(** [contours().size([width, height]).thresholds(thresholds)(values)] of
    d3-contour, a library the program imports. *)
Variable contours : nat -> nat -> list num -> list num -> list Contour.

Definition yToLat (height : nat) (lats : list num) (y : num) : num :=
  let yClamped := mathMax (lit 0) (mathMin (ofLength height - lit 1) y)%js in
  let t := if (height =? 1)%nat then lit 0
           else (yClamped / (ofLength height - lit 1))%js in
  (nth 0 lats NaN + t * (nth (height - 1) lats NaN - nth 0 lats NaN))%js.

Definition xToLon (width : nat) (lons : list num) (x : num) : num :=
  let xClamped := mathMax (lit 0) (mathMin (ofLength width - lit 1) x)%js in
  let t := if (width =? 1)%nat then lit 0
           else (xClamped / (ofLength width - lit 1))%js in
  (nth 0 lons NaN + t * (nth (width - 1) lons NaN - nth 0 lons NaN))%js.

(** [walk]: an array of more than one pair is a ring; any other array is
    searched element by element, and a pair itself holds no array. *)
Fixpoint walk (node : Coordinates) : list (list (num * num)) :=
  match node with
  | Ring points => if (1 <? length points)%nat then [points] else []
  | Group children => flat_map walk children
  end.

Definition flattenRings (coords : Coordinates) : list (list (num * num)) :=
  walk coords.

(** The body of [for (const ring of rings)]: what it pushes to [results]. *)
Definition ringPolylines (raster : Raster num) (c : Contour) (ring : list (num * num))
  : list Polyline :=
  if (length ring <? 2)%nat then []
  else
    let latlngs :=
      filter (fun ll => isFinite (fst ll) && isFinite (snd ll))
        (map (fun xy => (yToLat (height raster) (lats raster) (snd xy),
                         xToLon (width raster) (lons raster) (fst xy)))
             ring) in
    if (2 <=? length latlngs)%nat
    then [{| latlngs := chaikinSmooth latlngs 4; threshold := value c |}]
    else [].

(** The contour loop over a raster that is large enough. *)
Definition rasterPolylines (raster : Raster num) (thresholds : list num)
  : list Polyline :=
  if (width raster <? 2)%nat || (height raster <? 2)%nat then []
  else
    let cs := contours (width raster) (height raster) thresholds (values raster) in
    flat_map (fun c => flat_map (ringPolylines raster c) (flattenRings (coordinates c))) cs.

(** The value [polylines] that [ContourLayer] computes from its properties
    [points] and [thresholds]. *)
Definition polylines (points : option (list (Sample num))) (thresholds : list num)
  : list Polyline :=
  match buildRasterFromPoints points with
  | None => []
  | Some raster => rasterPolylines raster thresholds
  end.

(** What [ContourLayer] draws: the positions and the colour of each line. *)
Definition ContourLayer (points : option (list (Sample num))) (thresholds : list num)
  (colorForThreshold : num -> string) : list (list (num * num) * string) :=
  map (fun pl => (latlngs pl, colorForThreshold (threshold pl)))
      (polylines points thresholds).

End Contours.

Arguments Coordinates num : clear implicits.
Arguments Contour num : clear implicits.
Arguments Polyline num : clear implicits.

(** ** Zone raster layer *)

Module Cell.

(** A rectangle [{ bounds, color }]: its south-west and its north-east
    corner, and its colour. *)
Record t (num : Type) : Type := {
  bounds : (num * num) * (num * num);
  color : string
}.

End Cell.

Section ZoneRaster.

Context {num : Type} `{JsNumber num}.

(** The value [cells] that [ZoneRasterLayer] computes from its properties
    [points] and [colorForWi].  Where there is a raster there are points. *)
Definition cells (points : option (list (Sample num))) (colorForWi : num -> string)
  : list (Cell.t num) :=
  match buildRasterFromPoints points, points with
  | Some raster, Some points =>
      let halfLat := (dLat raster / lit 2)%js in
      let halfLon := (dLon raster / lit 2)%js in
      map (fun p =>
             {| Cell.bounds := ((lat p - halfLat, lon p - halfLon),
                                (lat p + halfLat, lon p + halfLon))%js;
                Cell.color := colorForWi (wi p) |})
          points
  | _, _ => []
  end.

(** [Object.keys(climateZones)] *)
Definition zoneKeys : list Zone.t :=
  [Zone.I; Zone.II; Zone.III; Zone.IV; Zone.V; Zone.VI].

(** [zoneStats]: the object [stats], a count for each key of
    [climateZones]. *)
Definition zoneStats (currentData : list (Sample num)) (z : Zone.t) : nat :=
  length (filter (fun point => (zone point =? Zone.name z)%string) currentData).

End ZoneRaster.

(** ** Year navigation *)

Section Years.

(** The samples of one year. *)
Variable Samples : Type.

(** The object [climateData.data]: its properties in the order in which
    [Object.keys] lists them.  Every key is the decimal numeral of a natural
    number, the year (a number that prints as its decimal numeral), and is
    given as that number. *)
Definition Data : Type := list (N * Samples).












(** [data[key]] for the string [key] of a year. *)
Definition property (data : Data) (year : N) : option Samples :=
  option_map snd (find (fun entry => (fst entry =? year)%N) data).

End Years.

(** [currentData]: [climateData?.data[currentYear.toString()] || []].  The
    result is [None] when the expression throws, which it does when there is
    a data set and [currentYear] is [undefined]. *)
Definition currentData (sample : Type) (climateData : option (Data (list sample)))
  (currentYear : option N) : option (list sample) :=
  match climateData with
  | None => Some []
  | Some data =>
      match currentYear with
      | None => None
      | Some year =>
          match property data year with
          | Some samples => Some samples
          | None => Some []
          end
      end
  end.

(** ** Statistics panel *)

(** [Math.max(...numbers)] and [Math.min(...numbers)] as ECMAScript defines
    them: the arguments are taken in turn, starting from -Infinity and from
    +Infinity.  (How many arguments a call may spread is up to the engine.) *)
Definition mathMaxOf (numbers : list float) : float :=
  fold_left Float64.max numbers PrimFloat.neg_infinity.

Definition mathMinOf (numbers : list float) : float :=
  fold_left Float64.min numbers PrimFloat.infinity.

(** The highest and the lowest index the panel shows; [None] is the dash it
    shows when there are no samples. *)
Definition maxWi (currentData : list (Sample float)) : option float :=
  if (0 <? length currentData)%nat then Some (mathMaxOf (map wi currentData))
  else None.

Definition minWi (currentData : list (Sample float)) : option float :=
  if (0 <? length currentData)%nat then Some (mathMinOf (map wi currentData))
  else None.

(** * Vocabulary of the properties, and example data *)


Section Vocabulary.

Context {num : Type} `{JsNumber num}.

(** Two numbers that are the same key of a [Set] or a [Map]. *)
Definition sameKey (a b : num) : Prop := sameValueZero a b = true.

(** [a] may stand before [b]: the comparator does not put it after [b]. *)
Definition ascending (a b : num) : Prop := (lit 0 <? a - b)%js = false.

(** An entry of an index map: a key and the position of that key in [axis]. *)
Definition entryOf (axis : list num) (e : num * nat) : Prop :=
  snd e < length axis /\ sameKey (nth (snd e) axis NaN) (fst e).

(** No two samples at the same (lat, lon). *)
Definition noDuplicatePairs (points : list (Sample num)) : Prop :=
  ForallOrdPairs
    (fun p q => sameValueZero (lat p) (lat q) && sameValueZero (lon p) (lon q) = false)
    points.

End Vocabulary.

(** A rounded value has the sign it was rounded with. *)
Definition signed (sx : bool) (r : spec_float) : Prop :=
  match r with
  | S754_zero s | S754_infinity s | S754_finite s _ _ => s = sx
  | S754_nan => True
  end.






(** A straight open polyline of 12001 points, (0,0), (1,0), ..., (12000,0). *)
Definition longPolyline : list (float * float) :=
  map (fun i => (ofLength i, f64 0)) (seq 0 (Z.to_nat 12001)).

(** Four samples on a grid of two latitudes and two longitudes. *)
Definition fourSamples : list (Sample float) :=
  [ {| lat := f64 35.1; lon := f64 139.0; wi := f64 40; zone := "II" |};
    {| lat := f64 35.0; lon := f64 139.1; wi := f64 20; zone := "II" |};
    {| lat := f64 35.1; lon := f64 139.1; wi := f64 50; zone := "III" |};
    {| lat := f64 35.0; lon := f64 139.0; wi := f64 10; zone := "I" |} ].


(** A contour generator that returns the ring marching squares traces
    around the top row of a grid of two columns and three rows whose rows
    hold 10, 30 and 50, at the threshold 45: in grid index space the row of
    index j lies at y = j + 0.5, the ring runs from y = 2.25 to the border
    y = 3, and from the border x = 0 to the border x = 2. *)
Definition topRowContours
  : nat -> nat -> list float -> list float -> list (Contour float) :=
  fun _ _ _ _ =>
    [ {| coordinates :=
           Group [Group [Ring [(f64 0.5, f64 2.25); (f64 1.5, f64 2.25);
                               (f64 2, f64 2.5); (f64 1.5, f64 3);
                               (f64 0.5, f64 3); (f64 0, f64 2.5);
                               (f64 0.5, f64 2.25)]]];
         value := f64 45 |} ].


Definition smallGrid : list (Sample Q) :=
  [ {| lat := 35%Q; lon := 139%Q; wi := 10%Q; zone := "I" |};
    {| lat := 35%Q; lon := 139.1%Q; wi := 20%Q; zone := "II" |};
    {| lat := 35.1%Q; lon := 139%Q; wi := 40%Q; zone := "II" |};
    {| lat := 35.1%Q; lon := 139.1%Q; wi := 50%Q; zone := "III" |} ].

Definition crossingContours : nat -> nat -> list Q -> list Q -> list (Contour Q) :=
  fun _ _ _ _ =>
    [ {| coordinates := Group [Group [Ring [(0, 0.5); (1, 0.75); (2, 1.5)]%Q]];
         value := 45%Q |} ].



(** Samples carry the zone the classifier gives their value. *)
Definition labelled {num} `{JsNumber num} (points : list (Sample num)) : Prop :=
  forall p, In p points -> zone p = Zone.name (assignZone (wi p)).


(** An open staircase of five points. *)
Definition staircase : list (float * float) :=
  [(f64 0, f64 0); (f64 1, f64 0); (f64 1, f64 1); (f64 2, f64 1); (f64 2, f64 2)].


(** A MultiPolygon of two polygons, the first with a hole of a single
    point. *)
Definition twoPolygons : list (list (list (float * float))) :=
  [ [ [(f64 0, f64 0); (f64 2, f64 0); (f64 2, f64 2); (f64 0, f64 0)];
      [(f64 1, f64 1)] ];
    [ [(f64 3, f64 3); (f64 4, f64 3); (f64 3, f64 3)] ] ].

(** Three samples on a grid of two latitudes and two longitudes: one
    position is sampled twice, and two positions are not sampled. *)
Definition repeatedSamples : list (Sample float) :=
  [ {| lat := f64 35.0; lon := f64 139.0; wi := f64 10; zone := "I" |};
    {| lat := f64 35.1; lon := f64 139.1; wi := f64 50; zone := "III" |};
    {| lat := f64 35.0; lon := f64 139.0; wi := f64 12; zone := "I" |} ].

(** A raster of two rows and two columns in binary64, and a ring with a
    point whose first grid coordinate is NaN. *)
Definition floatRaster : Raster float :=
  {| values := [f64 10; f64 20; f64 40; f64 50]; width := 2; height := 2;
     lats := [f64 35; f64 35.1]; lons := [f64 139; f64 139.1];
     dLat := f64 0.1; dLon := f64 0.1 |}.

Definition ringWithNaN : list (float * float) :=
  [(f64 0.5, f64 0.5); (NaN, f64 1); (f64 1, f64 1); (f64 1.5, f64 0.5)].

(** * Properties *)

(** The literals of the source denote the binary64 values they are read as. *)
Example f64_literals :
  f64 0.75 = 0.75%float /\ f64 0.25 = 0.25%float
  /\ map f64 [15; 45; 85; 180; 240]%Q = [15; 45; 85; 180; 240]%float
  /\ ZONE_BOUNDARIES = [15; 45; 85; 180; 240]%float.
Proof. repeat split; vm_compute; reflexivity. Qed.

(** ** The smoother *)

Section SmootherFacts.

Context {num : Type} `{JsNumber num}.

Local Abbreviation LatLng := (num * num)%type.

Lemma cutEdges_length (pts : list LatLng) (s e : nat) :
  length (cutEdges pts s e) = 2 * (e - 1 - s).
Proof.
  unfold cutEdges. generalize (e - 1 - s) as len. intros len. revert s.
  induction len as [|len IH]; intros s; simpl; [reflexivity|].
  rewrite IH. lia.
Qed.

Lemma item_last (l : list LatLng) (x : LatLng) :
  item (l ++ [x]) (length (l ++ [x]) - 1) = x.
Proof.
  unfold item. rewrite length_app. simpl.
  replace (length l + 1 - 1) with (length l) by lia.
  rewrite app_nth2 by lia. rewrite Nat.sub_diag. reflexivity.
Qed.

(** A pass over an open polyline keeps the two end points and cuts the edges
    between the interior points. *)
Lemma chaikinPass_open (pts : list LatLng) :
  chaikinPass false pts
  = item pts 0 :: cutEdges pts 1 (length pts - 1) ++ [item pts (length pts - 1)].
Proof. reflexivity. Qed.

Lemma chaikinPass_open_length (pts : list LatLng) :
  length (chaikinPass false pts) = 2 * (length pts - 3) + 2.
Proof.
  rewrite chaikinPass_open. simpl. rewrite length_app, cutEdges_length. simpl. lia.
Qed.

Lemma chaikinPass_closed (pts : list LatLng) :
  chaikinPass true pts = reclose (cutEdges pts 0 (length pts)).
Proof. reflexivity. Qed.

Lemma reclose_length (next : list LatLng) :
  length next <= length (reclose next).
Proof.
  unfold reclose.
  destruct (_ || _ || _); [rewrite length_app; simpl|]; lia.
Qed.

Lemma chaikinPass_closed_length (pts : list LatLng) :
  3 <= length pts -> 3 <= length (chaikinPass true pts).
Proof.
  intros Hn. rewrite chaikinPass_closed.
  pose proof (reclose_length (cutEdges pts 0 (length pts))) as Hr.
  rewrite cutEdges_length in Hr. lia.
Qed.

(** The loop is a number of passes, at most the number asked for. *)
Lemma chaikinLoop_passes (closed : bool) (iterations : nat) (pts : list LatLng) :
  exists done, done <= iterations
    /\ chaikinLoop closed iterations pts = Nat.iter done (chaikinPass closed) pts.
Proof.
  revert pts. induction iterations as [|k IH]; intros pts.
  - exists 0. split; [lia | reflexivity].
  - cbn [chaikinLoop].
    destruct (12000 <? Z.of_nat (length (chaikinPass closed pts)))%Z.
    + exists 1. split; [lia | reflexivity].
    + destruct (IH (chaikinPass closed pts)) as [j [Hj Heq]].
      exists (S j). split; [lia|].
      rewrite Heq, Nat.iter_succ_r. reflexivity.
Qed.

(** Once a pass has left more than 12000 points, asking for more iterations
    changes nothing. *)
Lemma chaikinLoop_ceiling (closed : bool) (k : nat) :
  forall (pts : list LatLng) (m : nat),
  1 <= k -> k <= m ->
  (12000 < Z.of_nat (length (chaikinLoop closed k pts)))%Z ->
  chaikinLoop closed m pts = chaikinLoop closed k pts.
Proof.
  induction k as [|k IH]; intros pts m Hk Hm Hbig; [lia|].
  destruct m as [|m]; [lia|].
  cbn [chaikinLoop] in *.
  destruct (12000 <? Z.of_nat (length (chaikinPass closed pts)))%Z eqn:Hnext;
    [reflexivity|].
  destruct k as [|k].
  - cbn [chaikinLoop] in Hbig. apply Z.ltb_ge in Hnext. lia.
  - apply IH; [lia | lia | exact Hbig].
Qed.




(** *** Properties of the vertices that smoothing keeps *)

Section Preserved.

Variable P : LatLng -> Prop.
Hypothesis cut_closed : forall p q, P p -> P q -> P (cutQ p q) /\ P (cutR p q).




Lemma chaikinPass_two (closed : bool) (pts : list LatLng) :
  3 <= length pts \/ (closed = false /\ 2 <= length pts) ->
  2 <= length (chaikinPass closed pts).
Proof.
  intros Hn. destruct closed.
  - pose proof (@chaikinPass_closed_length pts). lia.
  - rewrite chaikinPass_open_length. lia.
Qed.



End Preserved.

Lemma chaikinSmooth_one_open (pts : list LatLng) :
  3 <= length pts ->
  isClosed pts = false ->
  chaikinSmooth pts 1 = chaikinPass false pts.
Proof.
  intros Hn Hopen. unfold chaikinSmooth. rewrite Hopen.
  destruct (Nat.ltb_spec (length pts) 3) as [Hlt|_]; [lia|].
  cbn [chaikinLoop]. destruct (_ <? _)%Z; reflexivity.
Qed.

(** C1, as the code has it.  One iteration over an open polyline of N >= 3
    points keeps the first and the last point as the two ends and returns
    2*(N-3) + 2 points: only the N-3 edges between interior points are cut. *)
Theorem chaikinSmooth_open_one_iteration (pts : list LatLng) :
  3 <= length pts ->
  isClosed pts = false ->
  length (chaikinSmooth pts 1) = 2 * (length pts - 3) + 2
  /\ exists mid,
       chaikinSmooth pts 1 = item pts 0 :: mid ++ [item pts (length pts - 1)].
Proof.
  intros Hn Hopen. rewrite (chaikinSmooth_one_open pts Hn Hopen). split.
  - apply chaikinPass_open_length.
  - exists (cutEdges pts 1 (length pts - 1)). apply chaikinPass_open.
Qed.

(** C8, as the code has it.  The smoother runs a number of passes that is at
    most the iteration count, and once k >= 1 iterations leave more than
    12000 points, every larger iteration count m gives the result of k. *)
Theorem chaikinSmooth_ceiling (pts : list LatLng) (m : nat) :
  (exists done, done <= m
     /\ chaikinSmooth pts m = Nat.iter done (chaikinPass (isClosed pts)) pts)
  /\ forall k, 1 <= k -> k <= m ->
       (12000 < Z.of_nat (length (chaikinSmooth pts k)))%Z ->
       chaikinSmooth pts m = chaikinSmooth pts k.
Proof.
  unfold chaikinSmooth. destruct (length pts <? 3); split.
  - exists 0. split; [lia | reflexivity].
  - reflexivity.
  - apply chaikinLoop_passes.
  - intros k Hk Hm Hbig. apply chaikinLoop_ceiling; assumption.
Qed.

(** C9.  An open polyline of exactly three points is smoothed, for every
    iteration count of at least one, to its two endpoints: the middle point is
    dropped, no cut point is produced, and further iterations change nothing. *)
Theorem chaikinSmooth_three_open_points (pts : list LatLng) (iterations : nat) :
  length pts = 3 ->
  isClosed pts = false ->
  1 <= iterations ->
  chaikinSmooth pts iterations = [item pts 0; item pts 2]
  /\ forall more, chaikinSmooth pts (iterations + more) = chaikinSmooth pts iterations.
Proof.
  intros Hlen Hopen Hit.
  destruct pts as [|a [|b [|c [|d rest]]]]; try discriminate.
  assert (Htwo : forall k, chaikinLoop false k [a; c] = [a; c]).
  { induction k as [|k IH]; [reflexivity|].
    cbn [chaikinLoop]. unfold chaikinPass, cutEdges. simpl. exact IH. }
  assert (Hk : forall k, 1 <= k -> chaikinSmooth [a; b; c] k = [a; c]).
  { intros k Hk. unfold chaikinSmooth. rewrite Hopen. simpl.
    destruct k as [|k]; [lia|].
    cbn [chaikinLoop]. unfold chaikinPass, cutEdges. simpl.
    apply Htwo. }
  split.
  - apply Hk, Hit.
  - intros more. rewrite !Hk by lia. reflexivity.
Qed.

End SmootherFacts.

Lemma chaikinSmooth_three_open_points_witness :
  let pts := [(f64 0, f64 0); (f64 1, f64 1); (f64 2, f64 0)] in
  isClosed pts = false
  /\ chaikinSmooth pts 4 = [(f64 0, f64 0); (f64 2, f64 0)].
Proof.
  intros pts. split; [vm_compute; reflexivity|].
  apply (chaikinSmooth_three_open_points pts (iterations := 4)).
  - reflexivity.
  - vm_compute. reflexivity.
  - lia.
Defined.

(** C1 as stated fails: a three-point open polyline comes back with two
    points, not with 2*(3-2) + 2 = 4. *)
Lemma chaikinSmooth_open_count_counterexample :
  let pts := [(f64 0, f64 0); (f64 1, f64 1); (f64 2, f64 0)] in
  3 <= length pts
  /\ isClosed pts = false
  /\ length (chaikinSmooth pts 1) = 2
  /\ length (chaikinSmooth pts 1) <> 2 * (length pts - 2) + 2.
Proof.
  intros pts. split; [simpl; lia|].
  split; [vm_compute; reflexivity|].
  split; [vm_compute; reflexivity|].
  vm_compute. discriminate.
Qed.

Lemma chaikinSmooth_open_one_iteration_witness :
  let pts := [(f64 0, f64 0); (f64 1, f64 2); (f64 3, f64 2); (f64 4, f64 0)] in
  isClosed pts = false
  /\ length (chaikinSmooth pts 1) = 4
  /\ exists mid, chaikinSmooth pts 1 = (f64 0, f64 0) :: mid ++ [(f64 4, f64 0)].
Proof.
  intros pts.
  assert (Hopen : isClosed pts = false) by (vm_compute; reflexivity).
  split; [exact Hopen|].
  apply (chaikinSmooth_open_one_iteration pts); [simpl; lia | exact Hopen].
Defined.

Lemma longPolyline_length : length longPolyline = Z.to_nat 12001.
Proof. unfold longPolyline. rewrite length_map, length_seq. reflexivity. Qed.

Lemma longPolyline_open : isClosed longPolyline = false.
Proof. vm_compute. reflexivity. Qed.

Lemma longPolyline_one_iteration :
  Z.of_nat (length (chaikinSmooth longPolyline 1)) = 23998%Z.
Proof.
  pose proof longPolyline_length as Hlen.
  rewrite chaikinSmooth_one_open.
  - rewrite chaikinPass_open_length. lia.
  - lia.
  - exact longPolyline_open.
Qed.

(** C8 as stated fails at k = 0: the input already has more than 12000
    points, and one iteration still runs a pass over it. *)
Lemma chaikinSmooth_ceiling_counterexample :
  0 <= 1
  /\ (12000 < Z.of_nat (length (chaikinSmooth longPolyline 0)))%Z
  /\ chaikinSmooth longPolyline 1 <> chaikinSmooth longPolyline 0.
Proof.
  assert (H0 : chaikinSmooth longPolyline 0 = longPolyline).
  { unfold chaikinSmooth. destruct (_ <? _); reflexivity. }
  pose proof longPolyline_length as Hlen.
  pose proof longPolyline_one_iteration as Hone.
  rewrite H0. split; [lia|]. split; [lia|].
  intros Heq. rewrite Heq in Hone. lia.
Qed.

Lemma chaikinSmooth_ceiling_witness :
  (12000 < Z.of_nat (length (chaikinSmooth longPolyline 1)))%Z
  /\ chaikinSmooth longPolyline 4 = chaikinSmooth longPolyline 1.
Proof.
  assert (Hbig : (12000 < Z.of_nat (length (chaikinSmooth longPolyline 1)))%Z)
    by (rewrite longPolyline_one_iteration; lia).
  split; [exact Hbig|].
  apply (proj2 (chaikinSmooth_ceiling longPolyline 4) 1); [lia | lia | exact Hbig].
Defined.

(** ** Order of binary64 values *)

Module Float64Order.

Ltac compare_cases :=
  repeat match goal with
    | H : context [Z.compare ?a ?b] |- _ =>
        destruct (Z.compare_spec a b); try discriminate
    | |- context [Z.compare ?a ?b] => destruct (Z.compare_spec a b)
    | H : context [Pos.compare_cont Eq ?a ?b] |- _ =>
        change (Pos.compare_cont Eq a b) with (Pos.compare a b) in H;
        destruct (Pos.compare_spec a b); try discriminate
    | |- context [Pos.compare_cont Eq ?a ?b] =>
        change (Pos.compare_cont Eq a b) with (Pos.compare a b);
        destruct (Pos.compare_spec a b)
    end;
  simpl in *; try discriminate; try reflexivity; try lia.

Ltac spec_cases x y z :=
  destruct x as [[|]|[|]| |[|] ? ?], y as [[|]|[|]| |[|] ? ?], z as [[|]|[|]| |[|] ? ?];
  simpl; try discriminate; try reflexivity.

Lemma SFltb_SFleb_trans (x y z : spec_float) :
  SFltb x y = true -> SFleb y z = true -> SFltb x z = true.
Proof.
  unfold SFltb, SFleb, SFcompare. spec_cases x y z; intros H1 H2; compare_cases.
Qed.

Lemma SFltb_irrefl (x : spec_float) : SFltb x x = false.
Proof.
  unfold SFltb, SFcompare. destruct x as [[|]|[|]| |[|] m e]; simpl; try reflexivity.
  - rewrite Z.compare_refl.
    change (Pos.compare_cont Eq m m) with (Pos.compare m m).
    rewrite Pos.compare_refl. reflexivity.
  - rewrite Z.compare_refl.
    change (Pos.compare_cont Eq m m) with (Pos.compare m m).
    rewrite Pos.compare_refl. reflexivity.
Qed.

Lemma ltb_leb_trans (x y z : float) :
  PrimFloat.ltb x y = true -> PrimFloat.leb y z = true -> PrimFloat.ltb x z = true.
Proof. rewrite !ltb_spec, leb_spec. apply SFltb_SFleb_trans. Qed.

Lemma ltb_irrefl (x : float) : PrimFloat.ltb x x = false.
Proof. rewrite ltb_spec. apply SFltb_irrefl. Qed.

(** Nothing at or above [b] is below an [a] that is at most [b]. *)
Lemma not_below (a b v : float) :
  PrimFloat.leb a b = true -> PrimFloat.leb b v = true -> PrimFloat.ltb v a = false.
Proof.
  intros Hab Hbv. destruct (PrimFloat.ltb v a) eqn:Hva; [|reflexivity].
  pose proof (ltb_leb_trans (ltb_leb_trans Hva Hab) Hbv) as Hvv.
  rewrite ltb_irrefl in Hvv. discriminate.
Qed.

Lemma SFltb_false_SFleb (x y : spec_float) :
  SFltb x y = false -> SFeqb x x = true -> SFeqb y y = true -> SFleb y x = true.
Proof.
  unfold SFltb, SFleb, SFeqb, SFcompare.
  destruct x as [[|]|[|]| |[|] ? ?], y as [[|]|[|]| |[|] ? ?];
    simpl; try discriminate; try reflexivity; intros H1 _ _; compare_cases.
Qed.

Lemma SFltb_not_nan (x y : spec_float) :
  SFltb x y = true -> SFeqb x x = true /\ SFeqb y y = true.
Proof.
  unfold SFltb, SFeqb, SFcompare.
  destruct x as [[|]|[|]| |[|] ? ?], y as [[|]|[|]| |[|] ? ?];
    simpl; try discriminate; intros _;
    rewrite ?Z.compare_refl; simpl;
    repeat match goal with
      | |- context [Pos.compare_cont Eq ?m ?m] =>
          change (Pos.compare_cont Eq m m) with (Pos.compare m m);
          rewrite Pos.compare_refl
      end; split; reflexivity.
Qed.

(** A value that is not below a second one is at or above it, NaN apart. *)
Lemma ltb_false_leb (x y : float) :
  PrimFloat.ltb x y = false ->
  PrimFloat.is_nan x = false -> PrimFloat.is_nan y = false ->
  PrimFloat.leb y x = true.
Proof.
  unfold PrimFloat.is_nan. rewrite ltb_spec, leb_spec, !eqb_spec.
  intros Hlt Hx Hy. apply negb_false_iff in Hx, Hy.
  apply SFltb_false_SFleb; assumption.
Qed.

Lemma ltb_not_nan (x y : float) :
  PrimFloat.ltb x y = true -> PrimFloat.is_nan x = false /\ PrimFloat.is_nan y = false.
Proof.
  unfold PrimFloat.is_nan. rewrite ltb_spec, !eqb_spec. intros Hlt.
  apply SFltb_not_nan in Hlt as [-> ->]. split; reflexivity.
Qed.

Lemma SFeqb_sym (x y : spec_float) : SFeqb x y = true -> SFeqb y x = true.
Proof.
  unfold SFeqb, SFcompare.
  destruct x as [[|]|[|]| |[|] ? ?], y as [[|]|[|]| |[|] ? ?];
    simpl; try discriminate; try reflexivity; intros H1; compare_cases;
    subst; rewrite ?Z.compare_refl, ?Pos.compare_refl in *; try reflexivity; lia.
Qed.

Lemma SFeqb_trans (x y z : spec_float) :
  SFeqb x y = true -> SFeqb y z = true -> SFeqb x z = true.
Proof.
  unfold SFeqb, SFcompare. spec_cases x y z; intros H1 H2; compare_cases.
Qed.

Lemma eqb_sym (x y : float) : PrimFloat.eqb x y = true -> PrimFloat.eqb y x = true.
Proof. rewrite !eqb_spec. apply SFeqb_sym. Qed.

Lemma eqb_trans (x y z : float) :
  PrimFloat.eqb x y = true -> PrimFloat.eqb y z = true -> PrimFloat.eqb x z = true.
Proof. rewrite !eqb_spec. apply SFeqb_trans. Qed.

(** Values that are [===] are not NaN. *)
Lemma eqb_not_nan (x y : float) :
  PrimFloat.eqb x y = true -> PrimFloat.is_nan x = false /\ PrimFloat.is_nan y = false.
Proof.
  intros Hxy. pose proof (eqb_sym Hxy) as Hyx. unfold PrimFloat.is_nan.
  rewrite (eqb_trans Hxy Hyx), (eqb_trans Hyx Hxy). split; reflexivity.
Qed.

Lemma sameValueZero_refl (x : float) : sameValueZero x x = true.
Proof.
  unfold sameValueZero. simpl. unfold PrimFloat.is_nan.
  destruct (PrimFloat.eqb x x); reflexivity.
Qed.

Lemma sameValueZero_sym (x y : float) :
  sameValueZero x y = true -> sameValueZero y x = true.
Proof.
  unfold sameValueZero. cbn [strictEq isNaN Float64_number]. intros Hxy.
  apply orb_true_iff in Hxy as [Hxy|Hxy].
  - rewrite (eqb_sym Hxy). reflexivity.
  - apply andb_prop in Hxy as [-> ->]. apply orb_true_r.
Qed.

Lemma sameValueZero_trans (x y z : float) :
  sameValueZero x y = true -> sameValueZero y z = true -> sameValueZero x z = true.
Proof.
  unfold sameValueZero. cbn [strictEq isNaN Float64_number]. intros Hxy Hyz.
  apply orb_true_iff in Hxy as [Hxy|Hxy]; apply orb_true_iff in Hyz as [Hyz|Hyz].
  - rewrite (eqb_trans Hxy Hyz). reflexivity.
  - apply eqb_not_nan in Hxy as [_ Hy]. rewrite Hy in Hyz. discriminate.
  - apply eqb_not_nan in Hyz as [Hy _]. rewrite Hy, andb_false_r in Hxy. discriminate.
  - apply andb_prop in Hxy as [-> _]. apply andb_prop in Hyz as [_ ->].
    apply orb_true_r.
Qed.

Lemma canonicalKey_same (x : float) : sameValueZero (canonicalKey x) x = true.
Proof.
  unfold canonicalKey. destruct (x === lit 0)%js eqn:Hzero.
  - apply sameValueZero_sym. unfold sameValueZero. rewrite Hzero. reflexivity.
  - apply sameValueZero_refl.
Qed.

(** *** The sign of a difference *)

Lemma binary_round_signed (sx : bool) (m : positive) (e : Z) :
  signed sx (binary_round prec emax sx m e).
Proof.
  unfold binary_round, binary_round_aux.
  destruct (shl_align _ _ _) as [mz ez].
  destruct (shr_fexp _ _ _ _ _) as [mrs' e'].
  destruct (shr_fexp _ _ _ _ _) as [mrs'' e''].
  destruct (shr_m mrs''); simpl; try reflexivity.
  destruct (Z.leb _ _); reflexivity.
Qed.

Lemma signed_negative (r : spec_float) :
  signed true r -> SFltb (S754_zero false) r = false.
Proof. destruct r as [s|s| |s m e]; simpl; intros Hs; subst; reflexivity. Qed.

Lemma binary_normalize_positive (m e : Z) :
  SFltb (S754_zero false) (binary_normalize prec emax m e false) = true -> (0 < m)%Z.
Proof.
  destruct m as [|m|m]; simpl; [discriminate | lia |].
  rewrite signed_negative by apply binary_round_signed. discriminate.
Qed.

Lemma binary_normalize_negative (m e : Z) :
  (m < 0)%Z -> SFltb (S754_zero false) (binary_normalize prec emax m e false) = false.
Proof.
  destruct m as [|m|m]; simpl; try lia. intros _.
  apply signed_negative, binary_round_signed.
Qed.

Lemma SFsub_antisym (x y : spec_float) :
  SFltb (S754_zero false) (SF64sub x y) = true ->
  SFltb (S754_zero false) (SF64sub y x) = false.
Proof.
  unfold SF64sub, SFsub.
  destruct x as [[|]|[|]| |sx mx ex], y as [[|]|[|]| |sy my ey];
    try (simpl; try discriminate; reflexivity);
    try (destruct sx; simpl; try discriminate; reflexivity);
    try (destruct sy; simpl; try discriminate; reflexivity).
  cbv zeta. intros Hpos. apply binary_normalize_positive in Hpos.
  rewrite (Z.min_comm ey ex). apply binary_normalize_negative. lia.
Qed.

(** If the comparator [a - b] is positive, [b - a] is not. *)
Lemma difference_antisym (a b : float) :
  (lit 0 <? a - b)%js = true -> (lit 0 <? b - a)%js = false.
Proof.
  cbn [lt sub lit Float64_number]. rewrite !ltb_spec, !sub_spec.
  change (Prim2SF (Float64.literal 0)) with (S754_zero false).
  apply SFsub_antisym.
Qed.

End Float64Order.

(** ** Closed rings, in binary64 *)




(** ** Zone boundaries, in binary64 *)

(** A value is in the zone between two breakpoints when it is at or above
    the lower and below the upper one. *)
Lemma band_iff (lo hi v : float) :
  PrimFloat.is_nan lo = false ->
  (PrimFloat.ltb v lo = false /\ PrimFloat.ltb v hi = true)
  <-> (PrimFloat.leb lo v = true /\ PrimFloat.ltb v hi = true).
Proof.
  intros Hlo. split; intros [H1 H2]; (split; [|exact H2]).
  - apply Float64Order.ltb_false_leb; [exact H1 | | exact Hlo].
    apply (Float64Order.ltb_not_nan H2).
  - destruct (PrimFloat.ltb v lo) eqn:Hv; [|reflexivity].
    pose proof (Float64Order.ltb_leb_trans Hv H1) as Hvv.
    rewrite Float64Order.ltb_irrefl in Hvv. discriminate.
Qed.

(** C5.  The classifier is a function of the value alone, cut at 15, 45, 85,
    180 and 240, and a boundary value belongs to the zone above it: below 15
    is zone I, 15 is II, 44.999 is II, 45 is III, 85 is IV, 180 is V, 239 is V,
    240 is VI, and every value of at least 240 is VI.  Zone I is the values
    below 15, each of the zones II to V the values from its lower breakpoint
    (included) to its upper one (excluded), and zone VI the rest. *)
Theorem assignZone_boundaries :
  (forall v : float, (v <? f64 15)%js = true -> assignZone v = Zone.I)
  /\ assignZone (f64 15) = Zone.II
  /\ assignZone (f64 44.999) = Zone.II
  /\ assignZone (f64 45) = Zone.III
  /\ assignZone (f64 85) = Zone.IV
  /\ assignZone (f64 180) = Zone.V
  /\ assignZone (f64 239) = Zone.V
  /\ assignZone (f64 240) = Zone.VI
  /\ (forall v : float, (f64 240 <=? v)%js = true -> assignZone v = Zone.VI)
  /\ (forall v : float,
        (assignZone v = Zone.I <-> (v <? f64 15)%js = true)
        /\ (assignZone v = Zone.II
            <-> (f64 15 <=? v)%js = true /\ (v <? f64 45)%js = true)
        /\ (assignZone v = Zone.III
            <-> (f64 45 <=? v)%js = true /\ (v <? f64 85)%js = true)
        /\ (assignZone v = Zone.IV
            <-> (f64 85 <=? v)%js = true /\ (v <? f64 180)%js = true)
        /\ (assignZone v = Zone.V
            <-> (f64 180 <=? v)%js = true /\ (v <? f64 240)%js = true)
        /\ (assignZone v = Zone.VI <-> (v <? f64 240)%js = false)).
Proof.
  split.
  { intros v Hv. unfold assignZone, f64 in *. cbn [lt lit Float64_number] in *.
    rewrite Hv. reflexivity. }
  do 7 (split; [vm_compute; reflexivity|]).
  assert (Hbelow : forall a b v : float,
            PrimFloat.leb a b = true -> PrimFloat.ltb v a = true ->
            PrimFloat.ltb v b = true).
  { intros a b v Hab Hva. exact (Float64Order.ltb_leb_trans Hva Hab). }
  split.
  - intros v Hv. unfold assignZone, f64 in *. cbn [lt le lit Float64_number] in *.
    rewrite !(fun a Hab => @Float64Order.not_below a _ v Hab Hv)
      by (vm_compute; reflexivity).
    reflexivity.
  - intros v. unfold assignZone, f64. cbn [lt le lit Float64_number].
    rewrite <- !band_iff by (vm_compute; reflexivity).
    pose proof (Hbelow (Float64.literal 15) (Float64.literal 45) v eq_refl) as H1.
    pose proof (Hbelow (Float64.literal 45) (Float64.literal 85) v eq_refl) as H2.
    pose proof (Hbelow (Float64.literal 85) (Float64.literal 180) v eq_refl) as H3.
    pose proof (Hbelow (Float64.literal 180) (Float64.literal 240) v eq_refl) as H4.
    destruct (PrimFloat.ltb v (Float64.literal 15)) eqn:E1;
      [rewrite H1, H2, H3, H4 by auto; repeat split; intros; intuition congruence|].
    destruct (PrimFloat.ltb v (Float64.literal 45)) eqn:E2;
      [rewrite H2, H3, H4 by auto; repeat split; intros; intuition congruence|].
    destruct (PrimFloat.ltb v (Float64.literal 85)) eqn:E3;
      [rewrite H3, H4 by auto; repeat split; intros; intuition congruence|].
    destruct (PrimFloat.ltb v (Float64.literal 180)) eqn:E4;
      [rewrite H4 by auto; repeat split; intros; intuition congruence|].
    destruct (PrimFloat.ltb v (Float64.literal 240)) eqn:E5;
      repeat split; intros; intuition congruence.
Qed.

Lemma assignZone_boundaries_witness :
  assignZone (f64 14.5) = Zone.I /\ assignZone (f64 1000) = Zone.VI
  /\ assignZone (f64 120) = Zone.IV.
Proof.
  split; [|split].
  - apply (proj1 assignZone_boundaries). vm_compute. reflexivity.
  - apply assignZone_boundaries. vm_compute. reflexivity.
  - apply assignZone_boundaries. split; vm_compute; reflexivity.
Defined.

(** C6.  A threshold line takes the colour of the zone above the boundary it
    marks: 15 gives the colour of zone II, 45 of zone III, 240.1 of zone VI,
    and the five boundaries give the colours of zones II to VI in turn. *)
Theorem colorForThreshold_upper_zone :
  colorForThreshold (f64 15) = color (climateZones Zone.II)
  /\ colorForThreshold (f64 45) = color (climateZones Zone.III)
  /\ colorForThreshold (f64 240.1) = color (climateZones Zone.VI)
  /\ map colorForThreshold (ZONE_BOUNDARIES (num := float))
     = map (fun z => color (climateZones z))
           [Zone.II; Zone.III; Zone.IV; Zone.V; Zone.VI].
Proof. repeat split; vm_compute; reflexivity. Qed.

(** ** The rasterizer *)

Section RasterizerFacts.

Context {num : Type} `{JsNumber num}.

(** What the rasterizer needs of the numbers: [SameValueZero] is an
    equivalence, and a [Set] stores a key under a value that is the same. *)
Hypothesis same_refl : forall x : num, sameValueZero x x = true.
Hypothesis same_sym : forall x y : num,
  sameValueZero x y = true -> sameValueZero y x = true.
Hypothesis same_trans : forall x y z : num,
  sameValueZero x y = true -> sameValueZero y z = true -> sameValueZero x z = true.
Hypothesis canonical_same : forall x : num, sameValueZero (canonicalKey x) x = true.
Hypothesis comparator_antisym : forall a b : num,
  (lit 0 <? a - b)%js = true -> (lit 0 <? b - a)%js = false.

#[local] Instance sameKey_equivalence : Equivalence sameKey.
Proof.
  split.
  - intros x. apply same_refl.
  - intros x y. apply same_sym.
  - intros x y z. apply same_trans.
Qed.

Lemma existsb_sameKey (v : num) (s : list num) :
  existsb (sameValueZero v) s = true <-> InA sameKey v s.
Proof.
  rewrite existsb_exists, InA_alt. split; intros [y [H1 H2]]; exists y; tauto.
Qed.

Lemma setAdd_spec (s : list num) (v : num) :
  NoDupA sameKey s ->
  NoDupA sameKey (setAdd s v)
  /\ forall k, InA sameKey k (setAdd s v) <-> InA sameKey k s \/ sameKey k v.
Proof.
  intros Hs. unfold setAdd.
  destruct (existsb (sameValueZero v) s) eqn:Hin.
  - apply existsb_sameKey in Hin. split; [exact Hs|].
    intros k. split; [tauto|]. intros [Hk|Hk]; [exact Hk|].
    apply InA_eqA with v; [typeclasses eauto | symmetry; exact Hk | exact Hin].
  - assert (Hnot : ~ InA sameKey v s).
    { intros Hv. apply existsb_sameKey in Hv. congruence. }
    assert (Hcan : sameKey (canonicalKey v) v) by apply canonical_same.
    split.
    + apply NoDupA_app; [typeclasses eauto | exact Hs | apply NoDupA_singleton |].
      intros x Hx Hx'. apply InA_singleton in Hx'. apply Hnot.
      apply InA_eqA with x; [typeclasses eauto | | exact Hx].
      transitivity (canonicalKey v); assumption.
    + intros k. rewrite InA_app_iff, InA_singleton. split; intros [Hk|Hk]; auto.
      * right. transitivity (canonicalKey v); assumption.
      * right. transitivity v; [exact Hk | symmetry; exact Hcan].
Qed.

Lemma fold_setAdd_spec (vs s : list num) :
  NoDupA sameKey s ->
  NoDupA sameKey (fold_left setAdd vs s)
  /\ forall k, InA sameKey k (fold_left setAdd vs s)
               <-> InA sameKey k s \/ InA sameKey k vs.
Proof.
  revert s. induction vs as [|v vs IH]; intros s Hs; simpl.
  - split; [exact Hs|]. intros k. rewrite InA_nil. tauto.
  - destruct (setAdd_spec v Hs) as [Hnd Hin].
    destruct (IH _ Hnd) as [Hnd' Hin']. split; [exact Hnd'|].
    intros k. rewrite Hin', Hin, InA_cons. tauto.
Qed.

(** A [Set] built from a list holds each of its values once. *)
Lemma newSet_spec (vs : list num) :
  NoDupA sameKey (newSet vs)
  /\ forall k, InA sameKey k (newSet vs) <-> InA sameKey k vs.
Proof.
  destruct (@fold_setAdd_spec vs [] (NoDupA_nil _)) as [Hnd Hin].
  split; [exact Hnd|]. intros k. unfold newSet. rewrite Hin, InA_nil. tauto.
Qed.

Lemma insertSorted_perm (x : num) (l : list num) :
  Permutation (insertSorted x l) (x :: l).
Proof.
  induction l as [|y l IH]; simpl; [reflexivity|].
  destruct (lit 0 <? y - x)%js; [reflexivity|].
  rewrite IH. apply perm_swap.
Qed.

Lemma sortAscending_perm (l : list num) : Permutation (sortAscending l) l.
Proof.
  unfold sortAscending.
  assert (Hgen : forall acc, Permutation (fold_left (fun s x => insertSorted x s) l acc)
                                         (acc ++ l)).
  { induction l as [|x l IH]; intros acc; simpl.
    - rewrite app_nil_r. reflexivity.
    - rewrite IH, insertSorted_perm. apply Permutation_middle. }
  apply (Hgen []).
Qed.

Lemma insertSorted_HdRel (y x : num) (l : list num) :
  HdRel ascending y l -> ascending y x -> HdRel ascending y (insertSorted x l).
Proof.
  intros Hl Hx. destruct l as [|z l]; simpl; [constructor; exact Hx|].
  destruct (lit 0 <? z - x)%js; constructor; [exact Hx|].
  inversion Hl. assumption.
Qed.

Lemma insertSorted_sorted (x : num) (l : list num) :
  Sorted ascending l -> Sorted ascending (insertSorted x l).
Proof.
  induction 1 as [|y l Hl IH Hy]; simpl; [repeat constructor|].
  destruct (lit 0 <? y - x)%js eqn:Hyx.
  - constructor; [constructor; assumption|].
    constructor. apply comparator_antisym. exact Hyx.
  - constructor; [exact IH|]. apply insertSorted_HdRel; assumption.
Qed.

Lemma sortAscending_sorted (l : list num) : Sorted ascending (sortAscending l).
Proof.
  unfold sortAscending.
  assert (Hgen : forall acc, Sorted ascending acc ->
            Sorted ascending (fold_left (fun s x => insertSorted x s) l acc)).
  { induction l as [|x l IH]; intros acc Hacc; simpl; [exact Hacc|].
    apply IH, insertSorted_sorted, Hacc. }
  apply Hgen. constructor.
Qed.

(** An axis array of the raster holds each coordinate of the samples once. *)
Lemma axis_spec (vs : list num) :
  NoDupA sameKey (sortAscending (newSet vs))
  /\ forall k, InA sameKey k (sortAscending (newSet vs)) <-> InA sameKey k vs.
Proof.
  destruct (newSet_spec vs) as [Hnd Hin].
  pose proof (sortAscending_perm (newSet vs)) as Hperm.
  split.
  - apply PermutationA_preserves_NoDupA with (l₁ := newSet vs);
      [typeclasses eauto | | exact Hnd].
    apply Permutation_PermutationA; [typeclasses eauto|]. symmetry. exact Hperm.
  - intros k. rewrite <- Hin, !InA_alt.
    split; intros [y [Hy Hiny]]; exists y; split; try exact Hy.
    + apply Permutation_in with (1 := Hperm). exact Hiny.
    + apply Permutation_in with (1 := Permutation_sym Hperm). exact Hiny.
Qed.

(** *** The index maps *)

Lemma in_combine_seq (axis : list num) (start : nat) (k : num) (v : nat) :
  In (k, v) (combine axis (seq start (length axis))) ->
  start <= v < start + length axis /\ nth (v - start) axis NaN = k.
Proof.
  revert start. induction axis as [|a axis IH]; intros start; simpl; [tauto|].
  intros [Heq|Hin].
  - injection Heq as -> ->. rewrite Nat.sub_diag. split; [lia | reflexivity].
  - apply IH in Hin as [Hv Hnth]. split; [lia|].
    destruct (v - start) as [|d] eqn:Hd; [lia|].
    replace d with (v - S start) by lia. exact Hnth.
Qed.

Lemma map_fst_combine_seq (axis : list num) (start : nat) :
  map fst (combine axis (seq start (length axis))) = axis.
Proof.
  revert start. induction axis as [|a axis IH]; intros start; simpl;
    [reflexivity | rewrite IH; reflexivity].
Qed.

Lemma mapSet_entries (axis : list num) (m : list (num * nat)) (key : num) (v : nat) :
  Forall (entryOf axis) m ->
  v < length axis -> nth v axis NaN = key ->
  Forall (entryOf axis) (mapSet m key v).
Proof.
  intros Hm Hv Hkey. unfold mapSet.
  destruct (existsb _ m).
  - apply Forall_forall. intros e He. apply in_map_iff in He as [e0 [He0 Hin]].
    destruct (sameValueZero (fst e0) key) eqn:Hsame.
    + subst e. split; simpl; [exact Hv|]. rewrite Hkey. symmetry. exact Hsame.
    + subst e. apply (proj1 (Forall_forall _ _) Hm). exact Hin.
  - apply Forall_app. split; [exact Hm|]. constructor; [|constructor].
    split; simpl; [exact Hv|]. rewrite Hkey. symmetry. apply canonical_same.
Qed.

Lemma mapSet_keys (m : list (num * nat)) (key : num) (v : nat) (k : num) :
  InA sameKey k (map fst m) \/ sameKey k key ->
  InA sameKey k (map fst (mapSet m key v)).
Proof.
  unfold mapSet. destruct (existsb _ m) eqn:Hex.
  - assert (Hfst : map fst (map (fun e : num * nat =>
        if sameValueZero (fst e) key then (fst e, v) else e) m) = map fst m).
    { rewrite map_map. apply map_ext. intros e.
      destruct (sameValueZero (fst e) key); reflexivity. }
    rewrite Hfst. intros [Hk|Hk]; [exact Hk|].
    apply existsb_exists in Hex as [e [He Hsame]].
    apply InA_alt. exists (fst e). split; [|apply in_map; exact He].
    transitivity key; [exact Hk | symmetry; exact Hsame].
  - rewrite map_app, InA_app_iff. simpl. rewrite InA_singleton.
    intros [Hk|Hk]; [left; exact Hk|]. right.
    transitivity key; [exact Hk | symmetry; apply canonical_same].
Qed.

Lemma fold_mapSet_spec (axis : list num) (entries m : list (num * nat)) :
  (forall k v, In (k, v) entries -> v < length axis /\ nth v axis NaN = k) ->
  Forall (entryOf axis) m ->
  let m' := fold_left (fun m e => mapSet m (fst e) (snd e)) entries m in
  Forall (entryOf axis) m'
  /\ forall k, InA sameKey k (map fst m) \/ InA sameKey k (map fst entries) ->
               InA sameKey k (map fst m').
Proof.
  revert m. induction entries as [|[key v] entries IH]; intros m Hentries Hm; simpl.
  - split; [exact Hm|]. intros k [Hk|Hk]; [exact Hk|]. inversion Hk.
  - destruct (Hentries key v (or_introl eq_refl)) as [Hv Hkey].
    destruct (IH (mapSet m key v)) as [Hall Hkeys].
    + intros k' v' Hin. apply Hentries. right. exact Hin.
    + apply mapSet_entries; assumption.
    + split; [exact Hall|]. intros k Hk. apply Hkeys.
      rewrite InA_cons in Hk.
      destruct Hk as [Hk|[Hk|Hk]]; [left | left | right; exact Hk];
        apply mapSet_keys; auto.
Qed.

Lemma axisIndex_spec (axis : list num) :
  Forall (entryOf axis) (axisIndex axis)
  /\ forall k, InA sameKey k axis -> InA sameKey k (map fst (axisIndex axis)).
Proof.
  destruct (@fold_mapSet_spec axis (combine axis (seq 0 (length axis))) [])
    as [Hall Hkeys].
  - intros k v Hin. apply in_combine_seq in Hin as [Hv Hnth].
    rewrite Nat.sub_0_r in Hnth. split; [lia | exact Hnth].
  - constructor.
  - split; [exact Hall|]. intros k Hk. apply Hkeys. right.
    rewrite map_fst_combine_seq. exact Hk.
Qed.

(** A position an index map returns is the position of the same key. *)
Lemma mapGet_sound (axis : list num) (key : num) (y : nat) :
  mapGet (axisIndex axis) key = Some y ->
  y < length axis /\ sameKey (nth y axis NaN) key.
Proof.
  unfold mapGet. destruct (find _ (axisIndex axis)) as [e|] eqn:Hfind; [|discriminate].
  intros Hy. injection Hy as <-.
  apply find_some in Hfind as [Hin Hsame].
  destruct (proj1 (Forall_forall _ _) (proj1 (axisIndex_spec axis)) e Hin) as [Hlt Hkey].
  split; [exact Hlt|]. transitivity (fst e); assumption.
Qed.

(** Every key of the axis has a position in its index map. *)
Lemma mapGet_complete (axis : list num) (key : num) :
  InA sameKey key axis -> exists y, mapGet (axisIndex axis) key = Some y.
Proof.
  intros Hkey. apply (proj2 (axisIndex_spec axis)) in Hkey.
  apply InA_alt in Hkey as [k [Hk Hin]]. apply in_map_iff in Hin as [e [<- Hin]].
  unfold mapGet. destruct (find _ (axisIndex axis)) as [e'|] eqn:Hfind.
  - exists (snd e'). reflexivity.
  - apply find_none with (x := e) in Hfind; [|exact Hin].
    symmetry in Hk. unfold sameKey in Hk. congruence.
Qed.

(** *** The cells *)

Lemma arraySet_length (a : list num) (i : nat) (v : num) :
  i < length a -> length (arraySet a i v) = length a.
Proof.
  intros Hi. unfold arraySet. destruct (Nat.ltb_spec i (length a)) as [_|Hle]; [|lia].
  rewrite length_app. cbn [length]. rewrite length_firstn, length_skipn. lia.
Qed.

Lemma arraySet_cons (x : num) (a : list num) (i : nat) (v : num) :
  i < length a -> arraySet (x :: a) (S i) v = x :: arraySet a i v.
Proof.
  intros Hi. unfold arraySet. cbn [length].
  destruct (Nat.ltb_spec (S i) (S (length a))) as [_|Hle]; [|lia].
  destruct (Nat.ltb_spec i (length a)) as [_|Hle]; [|lia].
  reflexivity.
Qed.

Lemma arraySet_nth (a : list num) (i j : nat) (v : num) :
  i < length a ->
  nth j (arraySet a i v) NaN = if (j =? i)%nat then v else nth j a NaN.
Proof.
  revert i j. induction a as [|x a IH]; intros i j Hi; [simpl in Hi; lia|].
  destruct i as [|i].
  - destruct j as [|j]; reflexivity.
  - rewrite arraySet_cons by (simpl in Hi; lia).
    destruct j as [|j]; [reflexivity|].
    cbn [nth]. rewrite IH by (simpl in Hi; lia). reflexivity.
Qed.

Section Cells.

Variables (latIndex lonIndex : list (num * nat)) (width : nat).

Let cellOf (p : Sample num) : option nat := cellIndex latIndex lonIndex width p.
Let store := storeSample latIndex lonIndex width.

Lemma fold_store_length (points : list (Sample num)) (vals : list num) :
  (forall q c, In q points -> cellOf q = Some c -> c < length vals) ->
  length (fold_left store points vals) = length vals.
Proof.
  revert vals. induction points as [|p points IH]; intros vals Hrange; [reflexivity|].
  simpl. assert (Hlen : length (store vals p) = length vals).
  { unfold store, storeSample. fold (cellOf p).
    destruct (cellOf p) as [c|] eqn:Hc; [|reflexivity].
    apply arraySet_length. apply (Hrange p c); [left; reflexivity | exact Hc]. }
  rewrite IH; [exact Hlen|].
  intros q c Hq Hc. rewrite Hlen. apply (Hrange q c); [right; exact Hq | exact Hc].
Qed.

(** A cell holds [v] at the end if every sample written to it has the value
    [v] and some sample is written to it. *)
Lemma fold_store_value (points : list (Sample num)) (vals : list num) (c : nat) (v : num) :
  (forall q c', In q points -> cellOf q = Some c' -> c' < length vals) ->
  (forall q, In q points -> cellOf q = Some c -> wi q = v) ->
  (exists q, In q points /\ cellOf q = Some c) \/ nth c vals NaN = v ->
  nth c (fold_left store points vals) NaN = v.
Proof.
  revert vals. induction points as [|p points IH]; intros vals Hrange Hvalue Hsome.
  - destruct Hsome as [[q [[] _]]|Hv]. exact Hv.
  - simpl. assert (Hlen : length (store vals p) = length vals).
    { apply (@fold_store_length [p] vals). intros q c' [<-|[]] Hc.
      apply (Hrange p c'); [left; reflexivity | exact Hc]. }
    apply IH.
    + intros q c' Hq Hc. rewrite Hlen. apply (Hrange q c'); [right; exact Hq | exact Hc].
    + intros q Hq. apply Hvalue. right. exact Hq.
    + unfold store at 1, storeSample. fold (cellOf p).
      destruct (cellOf p) as [c'|] eqn:Hc.
      * rewrite arraySet_nth by (apply (Hrange p c'); [left; reflexivity | exact Hc]).
        destruct (Nat.eqb_spec c c') as [->|Hne].
        { right. apply Hvalue; [left; reflexivity | exact Hc]. }
        destruct Hsome as [[q [[<-|Hq] Hcq]]|Hv].
        { congruence. }
        { left. exists q. split; assumption. }
        { right. exact Hv. }
      * destruct Hsome as [[q [[<-|Hq] Hcq]]|Hv].
        { congruence. }
        { left. exists q. split; assumption. }
        { right. exact Hv. }
Qed.

End Cells.

Lemma cellIndex_sound (axisLat axisLon : list num) (p : Sample num) (c : nat) :
  cellIndex (axisIndex axisLat) (axisIndex axisLon) (length axisLon) p = Some c ->
  exists y x,
    c = x + y * length axisLon
    /\ y < length axisLat /\ x < length axisLon
    /\ sameKey (nth y axisLat NaN) (lat p)
    /\ sameKey (nth x axisLon NaN) (lon p).
Proof.
  unfold cellIndex.
  destruct (mapGet (axisIndex axisLat) (lat p)) as [y|] eqn:Hy; [|discriminate].
  destruct (mapGet (axisIndex axisLon) (lon p)) as [x|] eqn:Hx; [|discriminate].
  intros Hc. injection Hc as <-.
  apply mapGet_sound in Hy as [Hy Hlat]. apply mapGet_sound in Hx as [Hx Hlon].
  exists y, x. tauto.
Qed.

Lemma cellIndex_complete (axisLat axisLon : list num) (p : Sample num) :
  InA sameKey (lat p) axisLat -> InA sameKey (lon p) axisLon ->
  exists c, cellIndex (axisIndex axisLat) (axisIndex axisLon) (length axisLon) p = Some c.
Proof.
  intros Hlat Hlon. unfold cellIndex.
  destruct (mapGet_complete Hlat) as [y ->].
  destruct (mapGet_complete Hlon) as [x ->].
  eexists. reflexivity.
Qed.

(** Two samples written to the same cell are at the same (lat, lon). *)
Lemma cellIndex_same (axisLat axisLon : list num) (p q : Sample num) (c : nat) :
  cellIndex (axisIndex axisLat) (axisIndex axisLon) (length axisLon) p = Some c ->
  cellIndex (axisIndex axisLat) (axisIndex axisLon) (length axisLon) q = Some c ->
  sameValueZero (lat p) (lat q) && sameValueZero (lon p) (lon q) = true.
Proof.
  intros Hp Hq.
  apply cellIndex_sound in Hp as [y [x [Hc [Hy [Hx [Hlat Hlon]]]]]].
  apply cellIndex_sound in Hq as [y' [x' [Hc' [Hy' [Hx' [Hlat' Hlon']]]]]].
  assert (Hyy : y = y') by nia. subst y'.
  assert (Hxx : x = x') by nia. subst x'.
  apply andb_true_intro. split.
  - change (sameKey (lat p) (lat q)). transitivity (nth y axisLat NaN);
      [symmetry|]; assumption.
  - change (sameKey (lon p) (lon q)). transitivity (nth x axisLon NaN);
      [symmetry|]; assumption.
Qed.


Lemma ForallOrdPairs_impl_in (A : Type) (R R' : A -> A -> Prop) (l : list A) :
  (forall a b, In a l -> In b l -> R a b -> R' a b) ->
  ForallOrdPairs R l -> ForallOrdPairs R' l.
Proof.
  intros Himpl Hl. induction Hl as [|a l Ha Hl IH]; constructor.
  - apply Forall_forall. intros b Hb.
    apply Himpl; [left; reflexivity | right; exact Hb |].
    apply (proj1 (Forall_forall _ _) Ha b Hb).
  - apply IH. intros x y Hx Hy. apply Himpl; right; assumption.
Qed.

(** What [buildRasterFromPoints] returns for samples at pairwise different
    positions. *)
Lemma buildRasterFromPoints_spec (points : list (Sample num)) :
  points <> [] ->
  noDuplicatePairs points ->
  exists r,
    buildRasterFromPoints (Some points) = Some r
    /\ height r = length (lats r) /\ width r = length (lons r)
    /\ length (values r) = width r * height r
    /\ (NoDupA sameKey (lats r)
        /\ forall k, InA sameKey k (lats r) <-> InA sameKey k (map lat points))
    /\ (NoDupA sameKey (lons r)
        /\ forall k, InA sameKey k (lons r) <-> InA sameKey k (map lon points))
    /\ Sorted ascending (lats r) /\ Sorted ascending (lons r)
    /\ (forall p, In p points ->
         exists y x,
           cellIndex (axisIndex (lats r)) (axisIndex (lons r)) (width r) p
             = Some (x + y * width r)
           /\ y < height r /\ x < width r
           /\ sameKey (nth y (lats r) NaN) (lat p)
           /\ sameKey (nth x (lons r) NaN) (lon p)
           /\ nth (x + y * width r) (values r) NaN = wi p)
    /\ ForallOrdPairs
         (fun p q =>
            cellIndex (axisIndex (lats r)) (axisIndex (lons r)) (width r) p
            <> cellIndex (axisIndex (lats r)) (axisIndex (lons r)) (width r) q)
         points.
Proof.
  intros Hne Hnodup.
  destruct points as [|p0 rest]; [contradiction|].
  remember (p0 :: rest) as points eqn:Hpoints.
  set (axisLat := sortAscending (newSet (map lat points))).
  set (axisLon := sortAscending (newSet (map lon points))).
  set (vals := fold_left
                 (storeSample (axisIndex axisLat) (axisIndex axisLon) (length axisLon))
                 points (repeat NaN (length axisLon * length axisLat))).
  exists {| values := vals; width := length axisLon; height := length axisLat;
            lats := axisLat; lons := axisLon;
            dLat := cellSize axisLat; dLon := cellSize axisLon |}.
  split; [subst points; reflexivity|].
  cbn [values width height lats lons].
  destruct (axis_spec (map lat points)) as [HndLat HinLat].
  destruct (axis_spec (map lon points)) as [HndLon HinLon].
  fold axisLat in HndLat, HinLat. fold axisLon in HndLon, HinLon.
  assert (Hrange : forall q c, In q points ->
            cellIndex (axisIndex axisLat) (axisIndex axisLon) (length axisLon) q = Some c ->
            c < length (repeat NaN (length axisLon * length axisLat))).
  { intros q c _ Hc. rewrite repeat_length.
    apply cellIndex_sound in Hc as [y [x [-> [Hy [Hx _]]]]]. nia. }
  assert (Hcell : forall q, In q points -> exists c,
            cellIndex (axisIndex axisLat) (axisIndex axisLon) (length axisLon) q = Some c).
  { intros q Hq. apply cellIndex_complete.
    - apply HinLat, In_InA; [typeclasses eauto | apply in_map; exact Hq].
    - apply HinLon, In_InA; [typeclasses eauto | apply in_map; exact Hq]. }
  split; [reflexivity|]. split; [reflexivity|].
  split; [unfold vals; rewrite fold_store_length, repeat_length; [reflexivity | exact Hrange]|].
  split; [split; assumption|]. split; [split; assumption|].
  split; [apply sortAscending_sorted|]. split; [apply sortAscending_sorted|].
  split.
  - intros p Hp. destruct (Hcell p Hp) as [c Hc].
    destruct (cellIndex_sound _ _ _ Hc) as [y [x [Hcyx [Hy [Hx [Hlat Hlon]]]]]].
    exists y, x. rewrite <- Hcyx. repeat (split; [assumption|]).
    apply fold_store_value; [exact Hrange | | left; exists p; split; assumption].
    intros q Hq Hcq.
    destruct (ForallOrdPairs_In Hnodup p q Hp Hq) as [<-|[Hpq|Hqp]]; [reflexivity | |].
    + rewrite (cellIndex_same _ _ _ _ Hc Hcq) in Hpq. discriminate.
    + rewrite (cellIndex_same _ _ _ _ Hcq Hc) in Hqp. discriminate.
  - apply ForallOrdPairs_impl_in with (2 := Hnodup).
    intros p q Hp Hq Hpq Heq. destruct (Hcell p Hp) as [c Hc].
    rewrite Hc in Heq. symmetry in Heq.
    rewrite (cellIndex_same _ _ _ _ Hc Heq) in Hpq. discriminate.
Qed.

End RasterizerFacts.

(** C3.  For a non-empty list of samples, no two of them at the same
    (lat, lon), the raster has as many rows as there are distinct latitudes
    and as many columns as there are distinct longitudes: its axis arrays
    hold each latitude, and each longitude, of the samples exactly once, in
    the order of the sort.  Every sample's value is in the cell
    [x + y * width], where [y] and [x] are the positions of its latitude and
    longitude in the axis arrays, and no two samples are written to the same
    cell. *)
Theorem buildRasterFromPoints_cells (points : list (Sample float)) :
  points <> [] ->
  noDuplicatePairs points ->
  exists r,
    buildRasterFromPoints (Some points) = Some r
    /\ height r = length (lats r) /\ width r = length (lons r)
    /\ length (values r) = width r * height r
    /\ (NoDupA sameKey (lats r)
        /\ forall k, InA sameKey k (lats r) <-> InA sameKey k (map lat points))
    /\ (NoDupA sameKey (lons r)
        /\ forall k, InA sameKey k (lons r) <-> InA sameKey k (map lon points))
    /\ Sorted ascending (lats r) /\ Sorted ascending (lons r)
    /\ (forall p, In p points ->
         exists y x,
           cellIndex (axisIndex (lats r)) (axisIndex (lons r)) (width r) p
             = Some (x + y * width r)
           /\ y < height r /\ x < width r
           /\ sameValueZero (nth y (lats r) NaN) (lat p) = true
           /\ sameValueZero (nth x (lons r) NaN) (lon p) = true
           /\ nth (x + y * width r) (values r) NaN = wi p)
    /\ ForallOrdPairs
         (fun p q =>
            cellIndex (axisIndex (lats r)) (axisIndex (lons r)) (width r) p
            <> cellIndex (axisIndex (lats r)) (axisIndex (lons r)) (width r) q)
         points.
Proof.
  intros Hne Hnodup.
  destruct (buildRasterFromPoints_spec
              Float64Order.sameValueZero_refl Float64Order.sameValueZero_sym
              Float64Order.sameValueZero_trans Float64Order.canonicalKey_same
              Float64Order.difference_antisym Hne Hnodup)
    as [r [Hr [Hh [Hw [Hlen [Hlats [Hlons [Hslat [Hslon [Hcells Hdistinct]]]]]]]]]].
  exists r. repeat (split; [assumption|]). exact Hdistinct.
Qed.

(** ** Reprojection, in exact arithmetic *)

Module ExactFacts.

Open Scope Q_scope.







End ExactFacts.

(** *** The laws of the rasterizer, in exact arithmetic *)

Module ExactLaws.

Lemma sameValueZero_iff (x y : Q) : sameValueZero x y = true <-> (x == y)%Q.
Proof.
  unfold sameValueZero. cbn [strictEq isNaN Exact_number].
  rewrite andb_false_r, orb_false_r. apply Qeq_bool_iff.
Qed.





End ExactLaws.

(** ** Degenerate inputs *)

(** C7.  Whatever the thresholds and the contour generator: without samples
    (an absent or an empty list) the rasterizer returns no raster and the
    contour layer has no line; and with a raster of fewer than two columns or
    fewer than two rows the contour layer has no line either.  Each result is
    an ordinary empty value of a total function. *)
Theorem degenerate_inputs_give_no_polylines {num : Type} `{JsNumber num}
  (contours : nat -> nat -> list num -> list num -> list (Contour num))
  (thresholds : list num) :
  (buildRasterFromPoints (num := num) None = None
   /\ polylines contours None thresholds = []
   /\ forall colour, ContourLayer contours None thresholds colour = [])
  /\ (buildRasterFromPoints (num := num) (Some []) = None
      /\ polylines contours (Some []) thresholds = []
      /\ forall colour, ContourLayer contours (Some []) thresholds colour = [])
  /\ forall points raster,
       buildRasterFromPoints points = Some raster ->
       width raster < 2 \/ height raster < 2 ->
       rasterPolylines contours raster thresholds = []
       /\ polylines contours points thresholds = []
       /\ forall colour, ContourLayer contours points thresholds colour = [].
Proof.
  split; [repeat split|]. split; [repeat split|].
  intros points raster Hraster Hsmall.
  assert (Hnone : rasterPolylines contours raster thresholds = []).
  { unfold rasterPolylines.
    destruct (Nat.ltb_spec (width raster) 2) as [_|Hw]; [reflexivity|].
    destruct (Nat.ltb_spec (height raster) 2) as [_|Hh]; [reflexivity|]. lia. }
  assert (Hpoly : polylines contours points thresholds = []).
  { unfold polylines. rewrite Hraster. exact Hnone. }
  split; [exact Hnone|]. split; [exact Hpoly|].
  intros colour. unfold ContourLayer. rewrite Hpoly. reflexivity.
Qed.

(** ** Reprojection at the ends of an axis *)







(** ** The bounding box of the contour lines *)

Section Bounds.

Variable contours : nat -> nat -> list Q -> list Q -> list (Contour Q).
Variable thresholds : list Q.
Variable raster : Raster Q.

Hypothesis rows : height raster = length (lats raster).
Hypothesis columns : width raster = length (lons raster).
Hypothesis lats_ascending : Sorted Qle (lats raster).
Hypothesis lons_ascending : Sorted Qle (lons raster).




End Bounds.




Lemma buildRasterFromPoints_cells_witness :
  noDuplicatePairs fourSamples
  /\ exists r,
       buildRasterFromPoints (Some fourSamples) = Some r
       /\ height r = 2 /\ width r = 2
       /\ values r = [f64 10; f64 20; f64 40; f64 50].
Proof.
  assert (Hnodup : noDuplicatePairs fourSamples).
  { unfold noDuplicatePairs, fourSamples.
    repeat (constructor; [repeat (constructor; [vm_compute; reflexivity|]); constructor|]).
    constructor. }
  split; [exact Hnodup|].
  destruct (@buildRasterFromPoints_cells fourSamples) as [r [Hr _]];
    [discriminate | exact Hnodup |].
  exists r. vm_compute in Hr. injection Hr as <-. repeat split.
Defined.

Lemma degenerate_inputs_give_no_polylines_witness :
  let single := Some [ {| lat := f64 35; lon := f64 139; wi := f64 120; zone := "IV" |} ] in
  polylines topRowContours single ZONE_BOUNDARIES = [].
Proof.
  intros single.
  eapply (proj2 (proj2 (degenerate_inputs_give_no_polylines topRowContours
                          ZONE_BOUNDARIES)) single).
  - vm_compute. reflexivity.
  - left. simpl. lia.
Defined.

(** * Further properties *)

(** ** The smoother: end points, growth and size *)

Section SmootherGrowth.

Context {num : Type} `{JsNumber num}.

Local Abbreviation LatLng := (num * num)%type.

Lemma chaikinPass_open_ends (pts : list LatLng) :
  2 <= length pts ->
  2 <= length (chaikinPass false pts)
  /\ item (chaikinPass false pts) 0 = item pts 0
  /\ item (chaikinPass false pts) (length (chaikinPass false pts) - 1)
     = item pts (length pts - 1).
Proof.
  intros Hn. split; [rewrite chaikinPass_open_length; lia|].
  rewrite chaikinPass_open. split; [reflexivity|].
  change (item pts 0 :: cutEdges pts 1 (length pts - 1) ++ [item pts (length pts - 1)])
    with ((item pts 0 :: cutEdges pts 1 (length pts - 1)) ++ [item pts (length pts - 1)]).
  apply item_last.
Qed.

Lemma chaikinLoop_open_ends (iterations : nat) :
  forall pts : list LatLng,
  2 <= length pts ->
  2 <= length (chaikinLoop false iterations pts)
  /\ item (chaikinLoop false iterations pts) 0 = item pts 0
  /\ item (chaikinLoop false iterations pts)
          (length (chaikinLoop false iterations pts) - 1)
     = item pts (length pts - 1).
Proof.
  induction iterations as [|k IH]; intros pts Hn; [auto|].
  cbn [chaikinLoop].
  destruct (chaikinPass_open_ends pts Hn) as [Hlen [Hfirst Hlast]].
  destruct (_ <? _)%Z; [auto|].
  destruct (IH _ Hlen) as [Hlen' [Hfirst' Hlast']].
  rewrite Hfirst', Hlast', Hfirst, Hlast. auto.
Qed.

Lemma ends_decompose (l : list LatLng) :
  2 <= length l ->
  exists mid, l = item l 0 :: mid ++ [item l (length l - 1)].
Proof.
  intros Hl. destruct l as [|a l]; [simpl in Hl; lia|].
  destruct (exists_last (l := l)) as [mid [b ->]].
  { intros ->. simpl in Hl. lia. }
  exists mid. pose proof (item_last (a :: mid) b) as Hlast.
  rewrite <- app_comm_cons in Hlast. rewrite Hlast. reflexivity.
Qed.

(** X1.  Whatever the iteration count, smoothing an open polyline of at least
    three points returns a polyline of at least two points that starts at the
    first and ends at the last point of the input. *)
Theorem chaikinSmooth_open_keeps_ends (pts : list LatLng) (iterations : nat) :
  3 <= length pts ->
  isClosed pts = false ->
  2 <= length (chaikinSmooth pts iterations)
  /\ exists mid,
       chaikinSmooth pts iterations
       = item pts 0 :: mid ++ [item pts (length pts - 1)].
Proof.
  intros Hn Hopen. unfold chaikinSmooth. rewrite Hopen.
  destruct (Nat.ltb_spec (length pts) 3) as [Hlt|_]; [lia|].
  destruct (@chaikinLoop_open_ends iterations pts) as [Hlen [Hfirst Hlast]]; [lia|].
  split; [exact Hlen|].
  destruct (ends_decompose _ Hlen) as [mid Hmid].
  exists mid. rewrite Hfirst, Hlast in Hmid. exact Hmid.
Qed.

(** *** Size *)

Lemma chaikinPass_length_bounds (closed : bool) (pts : list LatLng) :
  3 <= length pts \/ (closed = false /\ 2 <= length pts) ->
  2 <= length (chaikinPass closed pts) <= 2 * length pts - 1
  /\ 2 * length pts - 4 <= length (chaikinPass closed pts).
Proof.
  intros Hn. destruct closed.
  - rewrite chaikinPass_closed. unfold reclose.
    pose proof (cutEdges_length pts 0 (length pts)) as Hcut.
    destruct (_ || _ || _); [rewrite length_app; simpl|]; lia.
  - rewrite chaikinPass_open_length. lia.
Qed.

Lemma chaikinLoop_size (closed : bool) (iterations : nat) :
  forall pts : list LatLng,
  3 <= length pts \/ (closed = false /\ 2 <= length pts) ->
  (Z.of_nat (length pts) <= 12000)%Z ->
  (Z.of_nat (length (chaikinLoop closed iterations pts)) <= 23999)%Z.
Proof.
  induction iterations as [|k IH]; intros pts Hn Hsmall; [simpl; lia|].
  cbn [chaikinLoop].
  destruct (chaikinPass_length_bounds pts Hn) as [[Hlo Hhi] _].
  destruct (Z.ltb_spec 12000 (Z.of_nat (length (chaikinPass closed pts)))) as [Hbig|Hle];
    [lia|].
  apply IH; [|exact Hle].
  destruct closed; [left | right; split; [reflexivity | lia]].
  apply chaikinPass_closed_length. lia.
Qed.

(** X2.  The size of the result is bounded whatever the iteration count: an
    input of at most 12000 points gives at most 23999 points, and an input of
    more than 12000 points gets exactly one pass (at most 2n - 1 points) as
    soon as one iteration is asked for. *)
Theorem chaikinSmooth_size (pts : list LatLng) (iterations : nat) :
  ((Z.of_nat (length pts) <= 12000)%Z ->
   (Z.of_nat (length (chaikinSmooth pts iterations)) <= 23999)%Z)
  /\ ((12000 < Z.of_nat (length pts))%Z -> 1 <= iterations ->
      chaikinSmooth pts iterations = chaikinPass (isClosed pts) pts
      /\ length (chaikinSmooth pts iterations) <= 2 * length pts - 1).
Proof.
  unfold chaikinSmooth. split.
  - intros Hsmall. destruct (Nat.ltb_spec (length pts) 3) as [Hlt|Hn]; [lia|].
    apply chaikinLoop_size; [left; exact Hn | exact Hsmall].
  - intros Hbig Hit. destruct (Nat.ltb_spec (length pts) 3) as [Hlt|Hn]; [lia|].
    destruct iterations as [|k]; [lia|]. cbn [chaikinLoop].
    destruct (chaikinPass_length_bounds (closed := isClosed pts) pts)
      as [[Hlo Hhi] Hmin];
      [left; exact Hn|].
    destruct (Z.ltb_spec 12000 (Z.of_nat (length (chaikinPass (isClosed pts) pts))))
      as [_|Hle]; [split; [reflexivity | exact Hhi] | lia].
Qed.

Lemma chaikinLoop_open_count (k : nat) :
  forall pts : list LatLng,
  4 <= length pts ->
  (k = 0 \/ (Z.of_nat (2 ^ (k - 1) * (length pts - 4) + 4) <= 12000)%Z) ->
  length (chaikinLoop false k pts) = 2 ^ k * (length pts - 4) + 4.
Proof.
  induction k as [|k IH]; intros pts Hn Hroom; [simpl; lia|].
  destruct Hroom as [Hk|Hroom]; [discriminate|].
  replace (S k - 1) with k in Hroom by lia.
  cbn [chaikinLoop].
  assert (Hpass : length (chaikinPass false pts) = 2 * (length pts - 4) + 4)
    by (rewrite chaikinPass_open_length; lia).
  destruct k as [|k].
  - destruct (_ <? _)%Z; cbn [chaikinLoop]; rewrite Hpass; simpl; lia.
  - assert (Hpow : 2 ^ S k = 2 * 2 ^ k) by (simpl; lia).
    replace (S k - 1) with k in IH by lia.
    assert (Hge : 1 <= 2 ^ k) by (apply Nat.neq_0_lt_0, Nat.pow_nonzero; lia).
    destruct (Z.ltb_spec 12000 (Z.of_nat (length (chaikinPass false pts))))
      as [Hbig|Hle].
    + rewrite Hpass in Hbig. nia.
    + rewrite IH; rewrite Hpass.
      * replace (2 * (length pts - 4) + 4 - 4) with (2 * (length pts - 4)) by lia.
        rewrite (Nat.pow_succ_r' 2 (S k)). lia.
      * lia.
      * right. replace (2 * (length pts - 4) + 4 - 4) with (2 * (length pts - 4)) by lia.
        replace (S k - 1) with k by lia. rewrite Hpow in Hroom. nia.
Qed.

(** X3.  How an open polyline grows: with N >= 4 points and no pass before
    the last one above the ceiling, k iterations return 2^k * (N - 4) + 4
    points; an open polyline of four points keeps four points for ever. *)
Theorem chaikinSmooth_open_count (pts : list LatLng) (k : nat) :
  4 <= length pts ->
  isClosed pts = false ->
  k = 0 \/ (Z.of_nat (2 ^ (k - 1) * (length pts - 4) + 4) <= 12000)%Z ->
  length (chaikinSmooth pts k) = 2 ^ k * (length pts - 4) + 4.
Proof.
  intros Hn Hopen Hroom. unfold chaikinSmooth. rewrite Hopen.
  destruct (Nat.ltb_spec (length pts) 3) as [Hlt|_]; [lia|].
  apply chaikinLoop_open_count; assumption.
Qed.

End SmootherGrowth.

(** ** Corner cutting never leaves a half-plane, in exact arithmetic *)


(** ** Rings and lines of the contour layer *)

Section RingsAndLines.

Context {num : Type} `{JsNumber num}.

Lemma walk_rings :
  forall node : Coordinates num, Forall (fun ring => 2 <= length ring) (walk node).
Proof.
  fix IH 1. intros [points|children].
  - simpl. destruct (Nat.ltb_spec 1 (length points)); repeat constructor. lia.
  - simpl. induction children as [|c cs IHcs]; simpl; [constructor|].
    apply Forall_app. split; [apply IH | exact IHcs].
Qed.

Lemma walk_polygon (poly : list (list (num * num))) :
  flat_map walk (map (@Ring num) poly)
  = filter (fun ring => (1 <? length ring)%nat) poly.
Proof.
  induction poly as [|ring poly IH]; simpl; [reflexivity|].
  rewrite IH. destruct (1 <? length ring)%nat; reflexivity.
Qed.

(** X5.  Every ring [flattenRings] returns has at least two points, and of a
    MultiPolygon (polygons of rings of points) it returns the rings of more
    than one point, holes included, in the order of the polygons. *)
Theorem flattenRings_multipolygon :
  (forall (coords : Coordinates num) ring,
     In ring (flattenRings coords) -> 2 <= length ring)
  /\ (forall polys : list (list (list (num * num))),
        flattenRings (Group (map (fun poly => Group (map (@Ring num) poly)) polys))
        = filter (fun ring => (1 <? length ring)%nat) (concat polys)).
Proof.
  split.
  - intros coords. apply Forall_forall, walk_rings.
  - intros polys. unfold flattenRings. cbn [walk].
    induction polys as [|poly polys IH]; [reflexivity|].
    cbn [map flat_map concat walk]. rewrite filter_app, IH, walk_polygon.
    reflexivity.
Qed.

Lemma chaikinLoop_two (closed : bool) (iterations : nat) :
  forall pts : list (num * num),
  3 <= length pts \/ (closed = false /\ 2 <= length pts) ->
  2 <= length (chaikinLoop closed iterations pts).
Proof.
  induction iterations as [|k IH]; intros pts Hn; [simpl; lia|].
  cbn [chaikinLoop]. pose proof (chaikinPass_two pts Hn) as Htwo.
  destruct (_ <? _)%Z; [exact Htwo|]. apply IH.
  destruct closed; [left | right; split; [reflexivity | exact Htwo]].
  apply chaikinPass_closed_length. lia.
Qed.

Lemma chaikinSmooth_two (pts : list (num * num)) (iterations : nat) :
  2 <= length pts -> 2 <= length (chaikinSmooth pts iterations).
Proof.
  intros Hn. unfold chaikinSmooth.
  destruct (Nat.ltb_spec (length pts) 3) as [_|Hthree]; [exact Hn|].
  apply chaikinLoop_two. left. exact Hthree.
Qed.

Variable contours : nat -> nat -> list num -> list num -> list (Contour num).

(** X6.  Every line of the contour layer has at least two vertices, and its
    threshold is the value of a contour the generator returned for the raster
    of the samples, a raster of at least two rows and two columns. *)
Theorem polylines_well_formed
  (points : option (list (Sample num))) (thresholds : list num) (pl : Polyline num) :
  In pl (polylines contours points thresholds) ->
  2 <= length (latlngs pl)
  /\ exists raster c,
       buildRasterFromPoints points = Some raster
       /\ 2 <= width raster /\ 2 <= height raster
       /\ In c (contours (width raster) (height raster) thresholds (values raster))
       /\ threshold pl = value c.
Proof.
  unfold polylines. destruct (buildRasterFromPoints points) as [raster|]; [|intros []].
  unfold rasterPolylines.
  destruct (Nat.ltb_spec (width raster) 2) as [Hw|Hw]; [intros []|].
  destruct (Nat.ltb_spec (height raster) 2) as [Hh|Hh]; [intros []|].
  cbn [orb]. intros Hpl.
  apply in_flat_map in Hpl as [c [Hc Hpl]].
  apply in_flat_map in Hpl as [ring [_ Hpl]].
  unfold ringPolylines in Hpl.
  destruct (length ring <? 2)%nat; [destruct Hpl|].
  destruct (Nat.leb_spec 2 (length (filter (fun ll => isFinite (fst ll) && isFinite (snd ll))
              (map (fun xy => (yToLat (height raster) (lats raster) (snd xy),
                               xToLon (width raster) (lons raster) (fst xy))) ring))))
    as [Hlen|Hlen]; [|destruct Hpl].
  destruct Hpl as [<-|[]]. cbn [latlngs threshold].
  split; [apply chaikinSmooth_two, Hlen|].
  exists raster, c. repeat split; assumption.
Qed.

End RingsAndLines.

(** ** NaN grid coordinates, in binary64 *)

Module Float64NaN.

Lemma SFeqb_refl_nan (x : spec_float) : SFeqb x x = false -> x = S754_nan.
Proof.
  unfold SFeqb, SFcompare. destruct x as [[|]|[|]| |[|] m e]; simpl;
    try discriminate; try reflexivity;
    rewrite Z.compare_refl;
    change (Pos.compare_cont Eq m m) with (Pos.compare m m);
    rewrite Pos.compare_refl; discriminate.
Qed.

Lemma is_nan_eq (x : float) : PrimFloat.is_nan x = true -> x = PrimFloat.nan.
Proof.
  unfold PrimFloat.is_nan. rewrite eqb_spec. intros Hx.
  apply negb_true_iff, SFeqb_refl_nan in Hx.
  apply Prim2SF_inj. rewrite Hx. reflexivity.
Qed.

Lemma div_nan_l (x : float) : PrimFloat.div PrimFloat.nan x = PrimFloat.nan.
Proof. apply Prim2SF_inj. rewrite div_spec. reflexivity. Qed.

Lemma mul_nan_l (x : float) : PrimFloat.mul PrimFloat.nan x = PrimFloat.nan.
Proof. apply Prim2SF_inj. rewrite mul_spec. reflexivity. Qed.

Lemma add_nan_r (x : float) : PrimFloat.add x PrimFloat.nan = PrimFloat.nan.
Proof.
  apply Prim2SF_inj. rewrite add_spec.
  change (Prim2SF PrimFloat.nan) with S754_nan.
  destruct (Prim2SF x); reflexivity.
Qed.

(** A NaN grid index is reprojected to NaN on an axis of more than one
    value. *)
Lemma yToLat_nan (height : nat) (lats : list float) (y : float) :
  2 <= height -> isNaN y = true -> yToLat height lats y = PrimFloat.nan.
Proof.
  intros Hh Hy. apply is_nan_eq in Hy. subst y. unfold yToLat.
  destruct (Nat.eqb_spec height 1) as [Hone|_]; [lia|].
  cbn [mathMax mathMin add mul div Float64_number].
  replace (Float64.min (ofLength height - lit 1)%js PrimFloat.nan) with PrimFloat.nan
    by (unfold Float64.min; rewrite orb_true_r; reflexivity).
  change (Float64.max (lit 0) PrimFloat.nan) with PrimFloat.nan.
  rewrite div_nan_l, mul_nan_l, add_nan_r. reflexivity.
Qed.

Lemma xToLon_nan (width : nat) (lons : list float) (x : float) :
  2 <= width -> isNaN x = true -> xToLon width lons x = PrimFloat.nan.
Proof. apply yToLat_nan. Qed.

End Float64NaN.

(** X7.  Points of a ring with a NaN grid coordinate are dropped before
    smoothing: on a raster of at least two rows and two columns a ring gives
    the lines of the ring without these points. *)
Theorem ringPolylines_drops_nan
  (raster : Raster float) (c : Contour float) (ring : list (float * float)) :
  2 <= width raster -> 2 <= height raster ->
  ringPolylines raster c ring
  = ringPolylines raster c
      (filter (fun xy => negb (isNaN (fst xy) || isNaN (snd xy))) ring).
Proof.
  intros Hw Hh.
  set (keep := fun xy : float * float => negb (isNaN (fst xy) || isNaN (snd xy))).
  set (project := fun xy : float * float =>
         (yToLat (height raster) (lats raster) (snd xy),
          xToLon (width raster) (lons raster) (fst xy))).
  set (finite := fun ll : float * float => isFinite (fst ll) && isFinite (snd ll)).
  assert (Hsame : filter finite (map project ring)
                  = filter finite (map project (filter keep ring))).
  { induction ring as [|xy ring IH]; [reflexivity|].
    cbn [map filter]. unfold keep at 1.
    destruct (isNaN (fst xy)) eqn:Hx; [|destruct (isNaN (snd xy)) eqn:Hy].
    - cbn [orb negb].
      assert (Hfin : finite (project xy) = false).
      { unfold finite, project. cbn [fst snd].
        rewrite (@Float64NaN.xToLon_nan (width raster) (lons raster) (fst xy) Hw Hx).
        apply andb_false_r. }
      rewrite Hfin. exact IH.
    - cbn [orb negb].
      assert (Hfin : finite (project xy) = false).
      { unfold finite, project. cbn [fst snd].
        rewrite (@Float64NaN.yToLat_nan (height raster) (lats raster) (snd xy) Hh Hy).
        reflexivity. }
      rewrite Hfin. exact IH.
    - cbn [orb negb map filter]. rewrite IH. reflexivity. }
  assert (Hshort : length (filter finite (map project ring)) <= length (filter keep ring)).
  { rewrite Hsame.
    etransitivity; [apply filter_length_le | rewrite length_map; reflexivity]. }
  pose proof (filter_length_le keep ring) as Hkeep.
  unfold ringPolylines. fold project. fold finite. rewrite <- Hsame.
  destruct (Nat.ltb_spec (length ring) 2) as [Hring|Hring];
    destruct (Nat.ltb_spec (length (filter keep ring)) 2) as [Hkept|Hkept];
    try reflexivity; try lia.
  destruct (Nat.leb_spec 2 (length (filter finite (map project ring)))) as [Hlen|Hlen];
    [lia | reflexivity].
Qed.

(** ** The rasterizer on any samples: repeated and missing positions *)

Section RasterizerCells.

Context {num : Type} `{JsNumber num}.

Hypothesis same_refl : forall x : num, sameValueZero x x = true.
Hypothesis same_sym : forall x y : num,
  sameValueZero x y = true -> sameValueZero y x = true.
Hypothesis same_trans : forall x y z : num,
  sameValueZero x y = true -> sameValueZero y z = true -> sameValueZero x z = true.
Hypothesis canonical_same : forall x : num, sameValueZero (canonicalKey x) x = true.

Lemma insertSorted_length (x : num) (l : list num) :
  length (insertSorted x l) = S (length l).
Proof.
  induction l as [|y l IH]; simpl; [reflexivity|].
  destruct (lit 0 <? y - x)%js; simpl; [reflexivity | rewrite IH; reflexivity].
Qed.

Lemma sortAscending_length (l : list num) : length (sortAscending l) = length l.
Proof.
  unfold sortAscending.
  assert (Hgen : forall acc,
            length (fold_left (fun s x => insertSorted x s) l acc)
            = length acc + length l).
  { induction l as [|x l IH]; intros acc; simpl; [lia|].
    rewrite IH, insertSorted_length. lia. }
  apply (Hgen []).
Qed.

Lemma setAdd_grows (s : list num) (v : num) : length s <= length (setAdd s v).
Proof.
  unfold setAdd. destruct (existsb _ s); [|rewrite length_app]; simpl; lia.
Qed.

Lemma newSet_nonempty (v : num) (vs : list num) : 1 <= length (newSet (v :: vs)).
Proof.
  unfold newSet. cbn [fold_left].
  assert (Hgen : forall l s, length s <= length (fold_left setAdd l s)).
  { induction l as [|x l IH]; intros s; simpl; [lia|].
    etransitivity; [apply setAdd_grows | apply IH]. }
  etransitivity; [|apply Hgen]. unfold setAdd. simpl. lia.
Qed.

Lemma buildRasterFromPoints_any (points : list (Sample num)) :
  points <> [] ->
  exists r,
    buildRasterFromPoints (Some points) = Some r
    /\ 1 <= height r /\ 1 <= width r
    /\ length (values r) = width r * height r
    /\ (forall before p after,
          points = before ++ p :: after ->
          (forall q, In q after ->
             sameValueZero (lat p) (lat q) && sameValueZero (lon p) (lon q) = false) ->
          exists y x,
            y < height r /\ x < width r
            /\ sameKey (nth y (lats r) NaN) (lat p)
            /\ sameKey (nth x (lons r) NaN) (lon p)
            /\ nth (x + y * width r) (values r) NaN = wi p)
    /\ (forall y x,
          y < height r -> x < width r ->
          (forall p, In p points ->
             sameKey (nth y (lats r) NaN) (lat p) ->
             sameKey (nth x (lons r) NaN) (lon p) -> False) ->
          nth (x + y * width r) (values r) NaN = NaN).
Proof.
  intros Hne.
  destruct points as [|p0 rest]; [contradiction|].
  remember (p0 :: rest) as points eqn:Hpoints.
  set (axisLat := sortAscending (newSet (map lat points))).
  set (axisLon := sortAscending (newSet (map lon points))).
  set (store := storeSample (axisIndex axisLat) (axisIndex axisLon) (length axisLon)).
  set (blank := repeat NaN (length axisLon * length axisLat)).
  exists {| values := fold_left store points blank;
            width := length axisLon; height := length axisLat;
            lats := axisLat; lons := axisLon;
            dLat := cellSize axisLat; dLon := cellSize axisLon |}.
  split; [subst points; reflexivity|].
  cbn [values width height lats lons].
  destruct (axis_spec same_refl same_sym same_trans canonical_same (map lat points))
    as [_ HinLat].
  destruct (axis_spec same_refl same_sym same_trans canonical_same (map lon points))
    as [_ HinLon].
  fold axisLat in HinLat. fold axisLon in HinLon.
  assert (Hsound := cellIndex_sound same_refl same_sym same_trans canonical_same
                      axisLat axisLon).
  assert (Hrange : forall (l : list (Sample num)) (vals : list num),
            length vals = length axisLon * length axisLat ->
            forall q c, In q l ->
            cellIndex (axisIndex axisLat) (axisIndex axisLon) (length axisLon) q = Some c ->
            c < length vals).
  { intros l vals Hvals q c _ Hc. rewrite Hvals.
    apply Hsound in Hc as [y [x [-> [Hy [Hx _]]]]]. nia. }
  assert (Hblank : length blank = length axisLon * length axisLat)
    by apply repeat_length.
  split; [unfold axisLat; rewrite sortAscending_length; subst points;
          apply newSet_nonempty|].
  split; [unfold axisLon; rewrite sortAscending_length; subst points;
          apply newSet_nonempty|].
  split; [unfold store; rewrite fold_store_length; [exact Hblank|];
          apply Hrange, Hblank|].
  clear Hpoints. split.
  - intros before p after -> Hlast.
    destruct (@cellIndex_complete _ _ same_refl same_sym same_trans canonical_same
                axisLat axisLon p) as [c Hc].
    { apply HinLat, In_InA; [apply (sameKey_equivalence same_refl same_sym same_trans)|].
      apply in_map, in_elt. }
    { apply HinLon, In_InA; [apply (sameKey_equivalence same_refl same_sym same_trans)|].
      apply in_map, in_elt. }
    destruct (Hsound _ _ Hc) as [y [x [Hcyx [Hy [Hx [Hlat Hlon]]]]]].
    exists y, x. rewrite <- Hcyx. repeat (split; [assumption|]).
    rewrite fold_left_app. cbn [fold_left].
    set (vals := fold_left store before blank).
    assert (Hvals : length vals = length axisLon * length axisLat).
    { unfold vals, store. rewrite fold_store_length; [exact Hblank|].
      apply Hrange, Hblank. }
    assert (Hstored : length (store vals p) = length axisLon * length axisLat).
    { unfold store, storeSample. rewrite Hc, arraySet_length; [exact Hvals|].
      apply (Hrange [p] vals Hvals p c); [left; reflexivity | exact Hc]. }
    apply fold_store_value.
    + apply Hrange, Hstored.
    + intros q Hq Hcq. specialize (Hlast q Hq).
      rewrite (cellIndex_same same_refl same_sym same_trans canonical_same
                 _ _ _ _ Hc Hcq) in Hlast.
      discriminate.
    + right. unfold store at 1, storeSample. rewrite Hc, arraySet_nth.
      * rewrite Nat.eqb_refl. reflexivity.
      * apply (Hrange [p] vals Hvals p c); [left; reflexivity | exact Hc].
  - intros y x Hy Hx Hnone. apply fold_store_value.
    + apply Hrange, Hblank.
    + intros q Hq Hcq. exfalso.
      destruct (Hsound _ _ Hcq) as [y' [x' [Hcyx [Hy' [Hx' [Hlat Hlon]]]]]].
      assert (Hyy : y = y') by nia. subst y'.
      assert (Hxx : x = x') by nia. subst x'.
      exact (Hnone q Hq Hlat Hlon).
    + right. unfold blank. apply nth_repeat.
Qed.

End RasterizerCells.

(** X8.  For any non-empty list of samples, repeated positions included, the
    raster has at least one row and one column and [width * height] cells;
    a sample that no later sample shares its (lat, lon) with has its value in
    the cell of its row and column (the last sample at a position wins); and
    a cell whose row and column no sample lies at holds NaN. *)
Theorem buildRasterFromPoints_any_samples (points : list (Sample float)) :
  points <> [] ->
  exists r,
    buildRasterFromPoints (Some points) = Some r
    /\ 1 <= height r /\ 1 <= width r
    /\ length (values r) = width r * height r
    /\ (forall before p after,
          points = before ++ p :: after ->
          (forall q, In q after ->
             sameValueZero (lat p) (lat q) && sameValueZero (lon p) (lon q) = false) ->
          exists y x,
            y < height r /\ x < width r
            /\ sameValueZero (nth y (lats r) NaN) (lat p) = true
            /\ sameValueZero (nth x (lons r) NaN) (lon p) = true
            /\ nth (x + y * width r) (values r) NaN = wi p)
    /\ (forall y x,
          y < height r -> x < width r ->
          (forall p, In p points ->
             sameValueZero (nth y (lats r) NaN) (lat p) = true ->
             sameValueZero (nth x (lons r) NaN) (lon p) = true -> False) ->
          nth (x + y * width r) (values r) NaN = NaN).
Proof.
  intros Hne.
  exact (buildRasterFromPoints_any
           Float64Order.sameValueZero_refl Float64Order.sameValueZero_sym
           Float64Order.sameValueZero_trans Float64Order.canonicalKey_same Hne).
Qed.

(** ** Year navigation *)

Section YearsFacts.

Variable Samples : Type.

Implicit Types (data : Data Samples) (years : list N).


















End YearsFacts.

Section YearsShown.

Variable sample : Type.

Implicit Types (data : Data (list sample)) (state : option N).






End YearsShown.

(** ** Zone counts and rectangles *)

Section ZoneCounts.

Context {num : Type} `{JsNumber num}.

Lemma zone_contribution (s : string) :
  let c := list_sum (map (fun z => if (s =? Zone.name z)%string then 1 else 0) zoneKeys) in
  c <= 1 /\ (c = 1 <-> exists z, s = Zone.name z).
Proof.
  cbn [zoneKeys map list_sum Zone.name].
  destruct (String.eqb_spec s "I") as [->|H1];
    [split; [simpl; lia | split; [exists Zone.I; reflexivity | reflexivity]]|].
  destruct (String.eqb_spec s "II") as [->|H2];
    [split; [simpl; lia | split; [exists Zone.II; reflexivity | reflexivity]]|].
  destruct (String.eqb_spec s "III") as [->|H3];
    [split; [simpl; lia | split; [exists Zone.III; reflexivity | reflexivity]]|].
  destruct (String.eqb_spec s "IV") as [->|H4];
    [split; [simpl; lia | split; [exists Zone.IV; reflexivity | reflexivity]]|].
  destruct (String.eqb_spec s "V") as [->|H5];
    [split; [simpl; lia | split; [exists Zone.V; reflexivity | reflexivity]]|].
  destruct (String.eqb_spec s "VI") as [->|H6];
    [split; [simpl; lia | split; [exists Zone.VI; reflexivity | reflexivity]]|].
  split; [simpl; lia|]. split; [simpl; lia|].
  intros [[| | | | |] Hz]; simpl in Hz; contradiction.
Qed.

Lemma zoneStats_cons (p : Sample num) (points : list (Sample num)) :
  list_sum (map (zoneStats (p :: points)) zoneKeys)
  = list_sum (map (fun z => if (zone p =? Zone.name z)%string then 1 else 0) zoneKeys)
    + list_sum (map (zoneStats points) zoneKeys).
Proof.
  unfold zoneStats. cbn [zoneKeys map list_sum filter].
  repeat match goal with
    | |- context [(zone p =? ?s)%string] => destruct (zone p =? s)%string
    end; unfold list_sum; cbn [length fold_right]; lia.
Qed.

(** X13.  The six zone counts together never exceed the number of samples,
    and they add up to it exactly when every sample carries one of the six
    zone names: a sample with any other zone is counted nowhere, and none is
    counted twice. *)
Theorem zoneStats_total (points : list (Sample num)) :
  list_sum (map (zoneStats points) zoneKeys) <= length points
  /\ (list_sum (map (zoneStats points) zoneKeys) = length points
      <-> forall p, In p points -> exists z, zone p = Zone.name z).
Proof.
  induction points as [|p points [IHle IHeq]].
  - split; [simpl; lia|]. split; [intros _ p [] | reflexivity].
  - rewrite zoneStats_cons. destruct (zone_contribution (zone p)) as [Hle Heq].
    cbv zeta in Hle, Heq. cbn [length]. split; [lia|]. split.
    + intros Hsum q [<-|Hq]; [apply Heq; lia | apply IHeq; [lia | exact Hq]].
    + intros Hall.
      assert (H1 : list_sum (map (fun z => if (zone p =? Zone.name z)%string
                                           then 1 else 0) zoneKeys) = 1)
        by (apply Heq, Hall; left; reflexivity).
      assert (H2 : list_sum (map (zoneStats points) zoneKeys) = length points)
        by (apply IHeq; intros q Hq; apply Hall; right; exact Hq).
      lia.
Qed.

Lemma colorForWi_zone (v : num) : colorForWi v = color (climateZones (assignZone v)).
Proof.
  unfold colorForWi, assignZone.
  repeat match goal with |- context [(v <? ?b)%js] => destruct (v <? b)%js end;
    reflexivity.
Qed.

Lemma cells_some (points : list (Sample num)) (paint : num -> string) :
  points <> [] ->
  exists raster,
    buildRasterFromPoints (Some points) = Some raster
    /\ cells (Some points) paint
       = map (fun p =>
                {| Cell.bounds :=
                     ((lat p - dLat raster / lit 2, lon p - dLon raster / lit 2),
                      (lat p + dLat raster / lit 2, lon p + dLon raster / lit 2))%js;
                   Cell.color := paint (wi p) |})
             points.
Proof.
  intros Hne. destruct points as [|p0 rest]; [contradiction|].
  eexists. split; reflexivity.
Qed.

(** X14.  The legend counts what the map shows: when every sample carries the
    zone the classifier gives its value, the count of a zone is the number
    of rectangles of the zone raster layer in the colour of that zone. *)
Theorem zoneStats_cells (points : list (Sample num)) (z : Zone.t) :
  labelled points ->
  zoneStats points z
  = length (filter (fun c => (Cell.color c =? color (climateZones z))%string)
                   (cells (Some points) colorForWi)).
Proof.
  intros Hlabel. destruct points as [|p0 rest]; [reflexivity|].
  destruct (@cells_some (p0 :: rest) colorForWi) as [raster [_ ->]]; [discriminate|].
  unfold zoneStats. revert Hlabel. generalize (p0 :: rest) as points. clear p0 rest.
  induction points as [|p points IH]; intros Hlabel; [reflexivity|].
  cbn [map filter Cell.color].
  assert (Hsame : (zone p =? Zone.name z)%string
                  = (colorForWi (wi p) =? color (climateZones z))%string).
  { rewrite (Hlabel p (or_introl eq_refl)), colorForWi_zone.
    destruct (assignZone (wi p)), z; reflexivity. }
  rewrite <- Hsame.
  destruct (zone p =? Zone.name z)%string; cbn [length]; rewrite IH;
    try reflexivity; intros q Hq; apply Hlabel; right; exact Hq.
Qed.

End ZoneCounts.

(** ** Reprojection along an axis, in exact arithmetic *)

Module ExactReprojection.

Open Scope Q_scope.









End ExactReprojection.



(** ** The rectangles of the zone raster layer, in exact arithmetic *)




(** ** The extremes of the statistics panel, in binary64 *)

Module Float64Extremes.

Import Float64Order.

Lemma SFleb_trans (x y z : spec_float) :
  SFleb x y = true -> SFleb y z = true -> SFleb x z = true.
Proof.
  unfold SFleb, SFcompare. spec_cases x y z; intros H1 H2; compare_cases.
Qed.

Lemma SFltb_SFleb (x y : spec_float) : SFltb x y = true -> SFleb x y = true.
Proof.
  unfold SFltb, SFleb, SFcompare.
  destruct x as [[|]|[|]| |[|] ? ?], y as [[|]|[|]| |[|] ? ?];
    simpl; try discriminate; try reflexivity; intros H1; compare_cases.
Qed.

Lemma SFleb_refl (x : spec_float) : SFeqb x x = true -> SFleb x x = true.
Proof.
  unfold SFeqb, SFleb. destruct (SFcompare x x) as [[| |]|]; try discriminate.
  reflexivity.
Qed.

Lemma leb_trans (x y z : float) :
  PrimFloat.leb x y = true -> PrimFloat.leb y z = true -> PrimFloat.leb x z = true.
Proof. rewrite !leb_spec. apply SFleb_trans. Qed.

Lemma ltb_leb (x y : float) : PrimFloat.ltb x y = true -> PrimFloat.leb x y = true.
Proof. rewrite ltb_spec, leb_spec. apply SFltb_SFleb. Qed.

Lemma leb_refl (x : float) : PrimFloat.is_nan x = false -> PrimFloat.leb x x = true.
Proof.
  unfold PrimFloat.is_nan. rewrite leb_spec, eqb_spec. intros Hx.
  apply negb_false_iff in Hx. apply SFleb_refl, Hx.
Qed.

Lemma below_neg_infinity (x : float) : PrimFloat.ltb x PrimFloat.neg_infinity = false.
Proof.
  rewrite ltb_spec. change (Prim2SF PrimFloat.neg_infinity) with (S754_infinity true).
  destruct (Prim2SF x) as [[|]|[|]| |[|] ? ?]; reflexivity.
Qed.

Lemma above_infinity (x : float) : PrimFloat.ltb PrimFloat.infinity x = false.
Proof.
  rewrite ltb_spec. change (Prim2SF PrimFloat.infinity) with (S754_infinity false).
  destruct (Prim2SF x) as [[|]|[|]| |[|] ? ?]; reflexivity.
Qed.

Lemma max_neg_infinity (x : float) :
  PrimFloat.is_nan x = false -> Float64.max PrimFloat.neg_infinity x = x.
Proof.
  intros Hx. unfold Float64.max. rewrite Hx, below_neg_infinity.
  change (PrimFloat.is_nan PrimFloat.neg_infinity) with false.
  change (PrimFloat.get_sign PrimFloat.neg_infinity) with true.
  cbn [orb]. destruct (PrimFloat.ltb PrimFloat.neg_infinity x); reflexivity.
Qed.

Lemma min_infinity (x : float) :
  PrimFloat.is_nan x = false -> Float64.min PrimFloat.infinity x = x.
Proof.
  intros Hx. unfold Float64.min. rewrite Hx, above_infinity.
  change (PrimFloat.is_nan PrimFloat.infinity) with false.
  change (PrimFloat.get_sign PrimFloat.infinity) with false.
  cbn [orb]. destruct (PrimFloat.ltb x PrimFloat.infinity); reflexivity.
Qed.

(** The larger of two numbers is one of them, and at least both. *)
Lemma max_cases (a b : float) :
  PrimFloat.is_nan a = false -> PrimFloat.is_nan b = false ->
  (Float64.max a b = a \/ Float64.max a b = b)
  /\ PrimFloat.leb a (Float64.max a b) = true
  /\ PrimFloat.leb b (Float64.max a b) = true.
Proof.
  intros Ha Hb. unfold Float64.max. rewrite Ha, Hb. cbn [orb].
  destruct (PrimFloat.ltb a b) eqn:Hab.
  - repeat split; [right; reflexivity | apply ltb_leb, Hab | apply leb_refl, Hb].
  - destruct (PrimFloat.ltb b a) eqn:Hba.
    + repeat split; [left; reflexivity | apply leb_refl, Ha | apply ltb_leb, Hba].
    + pose proof (ltb_false_leb Hab Ha Hb) as Hle1.
      pose proof (ltb_false_leb Hba Hb Ha) as Hle2.
      destruct (PrimFloat.get_sign a); repeat split;
        auto using leb_refl.
Qed.

Lemma min_cases (a b : float) :
  PrimFloat.is_nan a = false -> PrimFloat.is_nan b = false ->
  (Float64.min a b = a \/ Float64.min a b = b)
  /\ PrimFloat.leb (Float64.min a b) a = true
  /\ PrimFloat.leb (Float64.min a b) b = true.
Proof.
  intros Ha Hb. unfold Float64.min. rewrite Ha, Hb. cbn [orb].
  destruct (PrimFloat.ltb a b) eqn:Hab.
  - repeat split; [left; reflexivity | apply leb_refl, Ha | apply ltb_leb, Hab].
  - destruct (PrimFloat.ltb b a) eqn:Hba.
    + repeat split; [right; reflexivity | apply ltb_leb, Hba | apply leb_refl, Hb].
    + pose proof (ltb_false_leb Hab Ha Hb) as Hle1.
      pose proof (ltb_false_leb Hba Hb Ha) as Hle2.
      destruct (PrimFloat.get_sign a); repeat split;
        auto using leb_refl.
Qed.

Lemma fold_max_spec (l : list float) :
  forall acc : float,
  PrimFloat.is_nan acc = false ->
  (forall x, In x l -> PrimFloat.is_nan x = false) ->
  let r := fold_left Float64.max l acc in
  (r = acc \/ In r l)
  /\ PrimFloat.leb acc r = true
  /\ forall x, In x l -> PrimFloat.leb x r = true.
Proof.
  induction l as [|b l IH]; intros acc Hacc Hl; cbn [fold_left].
  - repeat split; [left; reflexivity | apply leb_refl, Hacc | intros x []].
  - destruct (@max_cases acc b) as [Hone [Hle1 Hle2]];
      [exact Hacc | apply Hl; left; reflexivity|].
    assert (Hnan : PrimFloat.is_nan (Float64.max acc b) = false).
    { destruct Hone as [->| ->]; [exact Hacc | apply Hl; left; reflexivity]. }
    destruct (IH (Float64.max acc b) Hnan) as [Hin [Hle Hall]].
    { intros x Hx. apply Hl. right. exact Hx. }
    repeat split.
    + destruct Hin as [Hin|Hin]; [|right; right; exact Hin].
      rewrite Hin. destruct Hone as [->| ->]; [left | right; left]; reflexivity.
    + apply (leb_trans Hle1 Hle).
    + intros x [<-|Hx]; [apply (leb_trans Hle2 Hle) | apply Hall, Hx].
Qed.

Lemma fold_min_spec (l : list float) :
  forall acc : float,
  PrimFloat.is_nan acc = false ->
  (forall x, In x l -> PrimFloat.is_nan x = false) ->
  let r := fold_left Float64.min l acc in
  (r = acc \/ In r l)
  /\ PrimFloat.leb r acc = true
  /\ forall x, In x l -> PrimFloat.leb r x = true.
Proof.
  induction l as [|b l IH]; intros acc Hacc Hl; cbn [fold_left].
  - repeat split; [left; reflexivity | apply leb_refl, Hacc | intros x []].
  - destruct (@min_cases acc b) as [Hone [Hle1 Hle2]];
      [exact Hacc | apply Hl; left; reflexivity|].
    assert (Hnan : PrimFloat.is_nan (Float64.min acc b) = false).
    { destruct Hone as [->| ->]; [exact Hacc | apply Hl; left; reflexivity]. }
    destruct (IH (Float64.min acc b) Hnan) as [Hin [Hle Hall]].
    { intros x Hx. apply Hl. right. exact Hx. }
    repeat split.
    + destruct Hin as [Hin|Hin]; [|right; right; exact Hin].
      rewrite Hin. destruct Hone as [->| ->]; [left | right; left]; reflexivity.
    + apply (leb_trans Hle Hle1).
    + intros x [<-|Hx]; [apply (leb_trans Hle Hle2) | apply Hall, Hx].
Qed.

(** Once NaN, always NaN. *)
Lemma fold_nan (f : float -> float -> float) (l : list float) :
  (forall a b, PrimFloat.is_nan a || PrimFloat.is_nan b = true -> f a b = PrimFloat.nan) ->
  forall acc,
  PrimFloat.is_nan acc = true \/ (exists x, In x l /\ PrimFloat.is_nan x = true) ->
  fold_left f l acc = PrimFloat.nan \/ (l = [] /\ PrimFloat.is_nan acc = true).
Proof.
  intros Hf. induction l as [|b l IH]; intros acc Hnan; cbn [fold_left].
  - destruct Hnan as [Hacc|[x [[] _]]]. right. split; [reflexivity | exact Hacc].
  - assert (Hstep : f acc b = PrimFloat.nan
                    \/ exists x, In x l /\ PrimFloat.is_nan x = true).
    { destruct Hnan as [Hacc|[x [[<-|Hx] Hxn]]].
      - left. apply Hf. rewrite Hacc. reflexivity.
      - left. apply Hf. rewrite Hxn. apply orb_true_r.
      - right. exists x. split; assumption. }
    destruct (IH (f acc b)) as [Hr|[-> Hr]].
    + destruct Hstep as [->|Hx]; [left; reflexivity | right; exact Hx].
    + left. exact Hr.
    + left. cbn [fold_left]. destruct Hstep as [Hs|[x [[] _]]]. exact Hs.
Qed.

End Float64Extremes.

(** X18.  The extremes of the statistics panel.  Without samples both show
    the dash.  With samples of which no index is NaN, the highest is the
    index of a sample that no sample exceeds, the lowest is the index of a
    sample that none falls below, and the lowest is at most the highest.  If
    the index of some sample is NaN, both are NaN. *)
Theorem statistics_extremes (currentData : list (Sample float)) :
  (currentData = [] -> maxWi currentData = None /\ minWi currentData = None)
  /\ (currentData <> [] ->
      (forall p, In p currentData -> isNaN (wi p) = false) ->
      exists hi lo,
        maxWi currentData = Some hi /\ minWi currentData = Some lo
        /\ In hi (map wi currentData) /\ In lo (map wi currentData)
        /\ (forall p, In p currentData ->
              (wi p <=? hi)%js = true /\ (lo <=? wi p)%js = true)
        /\ (lo <=? hi)%js = true)
  /\ ((exists p, In p currentData /\ isNaN (wi p) = true) ->
      maxWi currentData = Some NaN /\ minWi currentData = Some NaN).
Proof.
  split; [intros ->; split; reflexivity|]. split.
  - intros Hne Hnan. destruct currentData as [|p0 rest]; [contradiction|].
    unfold maxWi, minWi, mathMaxOf, mathMinOf. cbn [length Nat.ltb Nat.leb map fold_left].
    assert (H0 : PrimFloat.is_nan (wi p0) = false) by (apply Hnan; left; reflexivity).
    assert (Hrest : forall x, In x (map wi rest) -> PrimFloat.is_nan x = false).
    { intros x Hx. apply in_map_iff in Hx as [p [<- Hp]]. apply Hnan. right. exact Hp. }
    rewrite (Float64Extremes.max_neg_infinity _ H0), (Float64Extremes.min_infinity _ H0).
    destruct (Float64Extremes.fold_max_spec (map wi rest) (wi p0) H0 Hrest)
      as [Hhi [Hhi0 Hhiall]].
    destruct (Float64Extremes.fold_min_spec (map wi rest) (wi p0) H0 Hrest)
      as [Hlo [Hlo0 Hloall]].
    cbv zeta in *.
    exists (fold_left Float64.max (map wi rest) (wi p0)),
           (fold_left Float64.min (map wi rest) (wi p0)).
    split; [reflexivity|]. split; [reflexivity|].
    split; [destruct Hhi as [->|Hhi]; [left; reflexivity | right; exact Hhi]|].
    split; [destruct Hlo as [->|Hlo]; [left; reflexivity | right; exact Hlo]|].
    split.
    + intros p [<-|Hp]; [split; assumption|].
      split; [apply Hhiall | apply Hloall]; apply in_map, Hp.
    + apply (Float64Extremes.leb_trans Hlo0 Hhi0).
  - intros [p [Hp Hpn]]. destruct currentData as [|p0 rest]; [destruct Hp|].
    unfold maxWi, minWi, mathMaxOf, mathMinOf. cbn [length Nat.ltb Nat.leb].
    assert (Hin : exists x, In x (map wi (p0 :: rest)) /\ PrimFloat.is_nan x = true).
    { exists (wi p). split; [apply in_map, Hp | exact Hpn]. }
    split; f_equal.
    + destruct (@Float64Extremes.fold_nan Float64.max (map wi (p0 :: rest)))
        with (acc := PrimFloat.neg_infinity) as [Hr|[Hr _]];
        [ | right; exact Hin | exact Hr | discriminate].
      intros a b Hab. unfold Float64.max. rewrite Hab. reflexivity.
    + destruct (@Float64Extremes.fold_nan Float64.min (map wi (p0 :: rest)))
        with (acc := PrimFloat.infinity) as [Hr|[Hr _]];
        [ | right; exact Hin | exact Hr | discriminate].
      intros a b Hab. unfold Float64.min. rewrite Hab. reflexivity.
Qed.

(** ** The colours of the threshold lines, in binary64 *)

Module Float64Bands.

Import Float64Order.

Lemma SFleb_SFltb_false (x y : spec_float) :
  SFleb x y = true -> SFltb y x = false.
Proof.
  unfold SFltb, SFleb, SFcompare.
  destruct x as [[|]|[|]| |[|] ? ?], y as [[|]|[|]| |[|] ? ?];
    simpl; try discriminate; try reflexivity; intros H1; compare_cases.
Qed.

Lemma SFleb_false_SFltb (x y : spec_float) :
  SFleb x y = false -> SFeqb x x = true -> SFeqb y y = true -> SFltb y x = true.
Proof.
  unfold SFltb, SFleb, SFeqb, SFcompare.
  destruct x as [[|]|[|]| |[|] ? ?], y as [[|]|[|]| |[|] ? ?];
    simpl; try discriminate; try reflexivity; intros H1 _ _; compare_cases.
Qed.

Lemma SFleb_not_nan (x y : spec_float) : SFleb x y = true -> SFeqb x x = true.
Proof.
  unfold SFleb, SFeqb, SFcompare.
  destruct x as [[|]|[|]| |[|] ? ?], y as [[|]|[|]| |[|] ? ?];
    simpl; try discriminate; try reflexivity; intros _;
    rewrite ?Z.compare_refl; simpl;
    repeat match goal with
      | |- context [Pos.compare_cont Eq ?m ?m] =>
          change (Pos.compare_cont Eq m m) with (Pos.compare m m);
          rewrite Pos.compare_refl
      end; reflexivity.
Qed.

(** A threshold at or below a bound is not above it. *)
Lemma leb_not_above (t a : float) :
  PrimFloat.leb t a = true -> PrimFloat.ltb a t = false.
Proof. rewrite leb_spec, ltb_spec. apply SFleb_SFltb_false. Qed.

(** A threshold that is not at or below a bound, but is at or below a
    second one, is above the first. *)
Lemma leb_band (t a b : float) :
  PrimFloat.is_nan a = false ->
  PrimFloat.leb t a = false -> PrimFloat.leb t b = true -> PrimFloat.ltb a t = true.
Proof.
  unfold PrimFloat.is_nan. rewrite !leb_spec, ltb_spec, eqb_spec.
  intros Ha Hta Htb. apply negb_false_iff in Ha.
  apply SFleb_false_SFltb; [exact Hta | | exact Ha].
  apply (SFleb_not_nan _ _ Htb).
Qed.

End Float64Bands.

(** X19.  The colour of a threshold line, for every threshold: the colour of
    zone II up to 15, of zone III above 15 and up to 45, of zone IV above 45
    and up to 85, of zone V above 85 and up to 180, and of zone VI for
    everything else, NaN included; never the colour of zone I. *)
Theorem colorForThreshold_partition (t : float) :
  (colorForThreshold t = color (climateZones Zone.II) <-> (t <=? f64 15)%js = true)
  /\ (colorForThreshold t = color (climateZones Zone.III)
      <-> (f64 15 <? t)%js = true /\ (t <=? f64 45)%js = true)
  /\ (colorForThreshold t = color (climateZones Zone.IV)
      <-> (f64 45 <? t)%js = true /\ (t <=? f64 85)%js = true)
  /\ (colorForThreshold t = color (climateZones Zone.V)
      <-> (f64 85 <? t)%js = true /\ (t <=? f64 180)%js = true)
  /\ (colorForThreshold t = color (climateZones Zone.VI)
      <-> (t <=? f64 180)%js = false)
  /\ colorForThreshold t <> color (climateZones Zone.I).
Proof.
  unfold colorForThreshold, f64. cbn [lt le lit Float64_number].
  assert (Hup : forall a b : float,
            PrimFloat.leb a b = true -> PrimFloat.leb t a = true ->
            PrimFloat.leb t b = true).
  { intros a b Hab Hta. exact (Float64Extremes.leb_trans Hta Hab). }
  pose proof (Hup (Float64.literal 15) (Float64.literal 45) eq_refl) as H1.
  pose proof (Hup (Float64.literal 45) (Float64.literal 85) eq_refl) as H2.
  pose proof (Hup (Float64.literal 85) (Float64.literal 180) eq_refl) as H3.
  pose proof (@Float64Bands.leb_not_above t (Float64.literal 15)) as N1.
  pose proof (@Float64Bands.leb_not_above t (Float64.literal 45)) as N2.
  pose proof (@Float64Bands.leb_not_above t (Float64.literal 85)) as N3.
  pose proof (@Float64Bands.leb_band t (Float64.literal 15) (Float64.literal 45) eq_refl)
    as B1.
  pose proof (@Float64Bands.leb_band t (Float64.literal 45) (Float64.literal 85) eq_refl)
    as B2.
  pose proof (@Float64Bands.leb_band t (Float64.literal 85) (Float64.literal 180) eq_refl)
    as B3.
  destruct (PrimFloat.leb t (Float64.literal 15)) eqn:L1.
  { rewrite (H1 eq_refl), (H2 (H1 eq_refl)), (H3 (H2 (H1 eq_refl))).
    rewrite (N1 eq_refl), (N2 (H1 eq_refl)), (N3 (H2 (H1 eq_refl))).
    repeat split; try discriminate; try reflexivity; intros [? ?]; discriminate. }
  destruct (PrimFloat.leb t (Float64.literal 45)) eqn:L2.
  { rewrite (H2 eq_refl), (H3 (H2 eq_refl)).
    rewrite (B1 eq_refl eq_refl), (N2 eq_refl), (N3 (H2 eq_refl)).
    repeat split; try discriminate; try reflexivity; intros [? ?]; discriminate. }
  destruct (PrimFloat.leb t (Float64.literal 85)) eqn:L3.
  { rewrite (H3 eq_refl).
    rewrite (B2 eq_refl eq_refl), (N3 eq_refl).
    repeat split; try discriminate; try reflexivity; intros [? ?]; discriminate. }
  destruct (PrimFloat.leb t (Float64.literal 180)) eqn:L4.
  { rewrite (B3 eq_refl eq_refl).
    repeat split; try discriminate; try reflexivity; intros [? ?]; discriminate. }
  repeat split; try discriminate; try reflexivity; intros [? ?]; discriminate.
Qed.

(** ** The further properties at work *)

Lemma chaikinSmooth_open_keeps_ends_witness :
  2 <= length (chaikinSmooth staircase 4)
  /\ exists mid,
       chaikinSmooth staircase 4 = (f64 0, f64 0) :: mid ++ [(f64 2, f64 2)].
Proof.
  apply (@chaikinSmooth_open_keeps_ends float _ staircase 4).
  - simpl. lia.
  - vm_compute. reflexivity.
Defined.

Lemma chaikinSmooth_size_witness :
  (Z.of_nat (length (chaikinSmooth staircase 4)) <= 23999)%Z
  /\ chaikinSmooth longPolyline 4 = chaikinPass (isClosed longPolyline) longPolyline.
Proof.
  split.
  - apply (proj1 (chaikinSmooth_size staircase 4)). simpl. lia.
  - apply (proj2 (chaikinSmooth_size longPolyline 4)).
    + rewrite longPolyline_length. lia.
    + lia.
Defined.

Lemma chaikinSmooth_open_count_witness :
  length (chaikinSmooth staircase 4) = 20.
Proof.
  apply (@chaikinSmooth_open_count float _ staircase 4).
  - simpl. lia.
  - vm_compute. reflexivity.
  - right. simpl. lia.
Defined.


Lemma flattenRings_multipolygon_witness :
  2 <= length [(f64 3, f64 3); (f64 4, f64 3); (f64 3, f64 3)]
  /\ length (flattenRings
               (Group (map (fun poly => Group (map (@Ring float) poly)) twoPolygons)))
     = 2.
Proof.
  split.
  - apply (proj1 (@flattenRings_multipolygon float)
             (Group (map (fun poly => Group (map (@Ring float) poly)) twoPolygons))).
    simpl. right. left. reflexivity.
  - rewrite (proj2 (@flattenRings_multipolygon float) twoPolygons). reflexivity.
Defined.

Lemma polylines_well_formed_witness :
  let lines := polylines crossingContours (Some smallGrid) [45%Q] in
  let pl := hd {| latlngs := []; threshold := 0%Q |} lines in
  In pl lines /\ 2 <= length (latlngs pl).
Proof.
  intros lines pl.
  assert (Hpl : In pl lines) by (vm_compute; left; reflexivity).
  split; [exact Hpl|].
  apply (proj1 (polylines_well_formed crossingContours (Some smallGrid) [45%Q] pl Hpl)).
Defined.

Lemma ringPolylines_drops_nan_witness :
  let c := {| coordinates := Ring ringWithNaN; value := f64 45 |} in
  ringPolylines floatRaster c ringWithNaN
  = ringPolylines floatRaster c
      [(f64 0.5, f64 0.5); (f64 1, f64 1); (f64 1.5, f64 0.5)].
Proof.
  intros c.
  apply (@ringPolylines_drops_nan floatRaster c ringWithNaN); simpl; lia.
Defined.

Lemma buildRasterFromPoints_any_samples_witness :
  exists r,
    buildRasterFromPoints (Some repeatedSamples) = Some r
    /\ length (values r) = width r * height r.
Proof.
  destruct (@buildRasterFromPoints_any_samples repeatedSamples)
    as [r [Hr [_ [_ [Hlen _]]]]]; [discriminate|].
  exists r. split; assumption.
Defined.






Lemma zoneStats_total_witness :
  list_sum (map (zoneStats fourSamples) zoneKeys) = length fourSamples.
Proof.
  apply (proj2 (proj2 (@zoneStats_total float fourSamples))).
  intros p Hp. simpl in Hp.
  destruct Hp as [<-|[<-|[<-|[<-|[]]]]];
    [exists Zone.II | exists Zone.II | exists Zone.III | exists Zone.I]; reflexivity.
Defined.

Lemma fourSamples_labelled : labelled fourSamples.
Proof.
  intros p Hp. simpl in Hp.
  destruct Hp as [<-|[<-|[<-|[<-|[]]]]]; vm_compute; reflexivity.
Qed.

Lemma zoneStats_cells_witness :
  zoneStats fourSamples Zone.II
  = length (filter (fun c => (Cell.color c =? color (climateZones Zone.II))%string)
                   (cells (Some fourSamples) colorForWi)).
Proof.
  apply (@zoneStats_cells float _ fourSamples Zone.II fourSamples_labelled).
Defined.




Lemma statistics_extremes_witness :
  exists hi lo,
    maxWi fourSamples = Some hi /\ minWi fourSamples = Some lo
    /\ (lo <=? hi)%js = true.
Proof.
  destruct (proj1 (proj2 (statistics_extremes fourSamples)))
    as [hi [lo [Hhi [Hlo [_ [_ [_ Hle]]]]]]].
  - discriminate.
  - intros p Hp. simpl in Hp.
    destruct Hp as [<-|[<-|[<-|[<-|[]]]]]; vm_compute; reflexivity.
  - exists hi, lo. repeat split; assumption.
Defined.
